(** * Revenue forecast and retention engine of Solo_bot: a shallow embedding

    Source: [src/modules/revenue_forecast/db.py] and
    [src/modules/revenue_forecast/router.py].

    Conventions of the embedding.
    - Python [int] is [Z]; a nullable column or an optional argument is an
      [option].
    - Python [float] values (prices, probabilities, money) are exact
      rationals [Q]; equalities between computed floats are stated with
      [Qeq] ([==]) where the representation matters, so the rounding error
      of IEEE arithmetic is left out.
    - A Python [dict] is a [gmap], a [set] a [gset]; query results are lists.
    - Instants are [Z] milliseconds, both for [datetime] values and for the
      millisecond epochs derived from them with [timestamp() * 1000].
    - The database is a [Store] of plan, key and payment rows.  A query is a
      function of the store; its rows come in table order, which is one of
      the orders the database may return.  Functions that the source splits
      into a query and a loop over its rows keep the name of the source
      function and take the store (or the rows) instead of the session. *)

From Stdlib Require Import ZArith QArith Qminmax Lia.
From stdpp Require Import base option list gmap strings fin_maps.

Local Open Scope string_scope.
Local Open Scope Z_scope.

(** ** Python numerics *)

(** [round(n / d)] for a positive denominator: nearest integer, ties to the
    even neighbour (Python 3 [round] on a float). *)
Definition round_half_even_div (n d : Z) : Z :=
  let q := n / d in
  let r := n mod d in
  if 2 * r <? d then q
  else if d <? 2 * r then q + 1
  else if Z.even q then q else q + 1.

(** [round(x)] of a float [x]. *)
Definition py_round (x : Q) : Z :=
  round_half_even_div (Qnum x) (Zpos (Qden x)).

(** [max(a, b)] and [min(a, b)] of Python: the first argument is kept unless
    the second is strictly larger (resp. smaller). *)
Definition py_max (a b : Q) : Q := if Qle_bool b a then a else b.
Definition py_min (a b : Q) : Q := if Qle_bool a b then a else b.

(** ** Plan bucket classifier ([_bucket_plan], db.py) *)

(** [round((duration_days or 0) / 30) if duration_days else 0] *)
Definition months_of_duration (duration_days : option Z) : Z :=
  match duration_days with
  | None => 0
  | Some d => if d =? 0 then 0 else py_round (inject_Z d / 30)
  end.

(** [round((duration or 0) / 30) if duration else None] *)
Definition period_months_of (duration : option Z) : option Z :=
  match duration with
  | None => None
  | Some d => if d =? 0 then None else Some (py_round (inject_Z d / 30))
  end.

Definition canonical_codes : list string := ["1m"; "3m"; "12m"].

Definition bucket_of_months (months : Z) : string :=
  if months =? 1 then "1m"
  else if months =? 3 then "3m"
  else if (10 <=? months) && (months <=? 13) then "12m"
  else "other".

Definition _bucket_plan (group_code : option string) (duration_days : option Z)
  : string :=
  match group_code with
  | Some g =>
      if bool_decide (g ∈ canonical_codes) then g
      else bucket_of_months (months_of_duration duration_days)
  | None => bucket_of_months (months_of_duration duration_days)
  end.

(** ** Bucket grouping of the historical cohort query
    (the SQL text of [estimate_auto_renewal_probs]) *)

(** [x BETWEEN lo AND hi] *)
Definition sql_between (x lo hi : Z) : bool := (lo <=? x) && (x <=? hi).

(** CTE [plans]: [COALESCE(t.duration_days, 30) AS duration_days]. *)
Definition plans_duration_days (duration_days : option Z) : Z :=
  default 30 duration_days.

(** CTE [prepared]: the [CASE ... END AS bucket] over [duration_days]. *)
Definition prepared_bucket (duration_days : Z) : string :=
  if sql_between duration_days 25 40 then "1m"
  else if sql_between duration_days 80 100 then "3m"
  else if sql_between duration_days 360 390 then "12m"
  else "other".

(** The bucket the cohort query gives a subscription whose plan has the
    stored [duration_days]; the plan's [group_code] is selected but never
    enters the [CASE]. *)
Definition cohort_query_bucket (group_code : option string)
    (duration_days : option Z) : string :=
  prepared_bucket (plans_duration_days duration_days).


(** ** The relational store (read only)

    [tariffs.id] is the primary key of the plan table, so a [GROUP BY] over
    all selected plan columns has one group per joined plan. *)

Module Plan.
Record t := mk {
  id : Z;
  name : string;
  group_code : option string;
  duration_days : option Z;
  price_rub : option Z;
}.
End Plan.

Module Key.
Record t := mk {
  tg_id : Z;
  client_id : string;
  tariff_id : Z;
  expiry_time : Z;
  is_frozen : option bool;
  created_at : Z;
}.
End Key.

Module Payment.
Record t := mk {
  tg_id : Z;
  amount : option Q;
  status : string;
  created_at : Z;
}.
End Payment.

Record Store := {
  keys : list Key.t;
  plans : list Plan.t;
  payments : list Payment.t;
}.

(** The two policy switches read from [flags]. *)
Record Flags := {
  SKIP_FROZEN : bool;
  EXCLUDE_TRIALS : bool;
}.

Definition ms_per_day : Z := 86400000.

(** *** SQL three-valued conditions: [None] is NULL *)

Definition sql_or (a b : option bool) : option bool :=
  match a, b with
  | Some true, _ | _, Some true => Some true
  | Some false, Some false => Some false
  | _, _ => None
  end.

Definition sql_not (a : option bool) : option bool := negb <$> a.

(** [col = 'lit'] on a nullable text column. *)
Definition sql_eq_text (col : option string) (lit : string) : option bool :=
  (fun s => bool_decide (s = lit)) <$> col.

(** A [WHERE] clause keeps a row only when its condition is TRUE. *)
Definition sql_holds (c : option bool) : bool :=
  match c with Some true => true | _ => false end.

(** [~((group_code == "trial") | (coalesce(price_rub, 0) == 0))] *)
Definition not_trial (p : Plan.t) : bool :=
  sql_holds (sql_not (sql_or (sql_eq_text (Plan.group_code p) "trial")
                             (Some (default 0 (Plan.price_rub p) =? 0)))).

(** [is_frozen IS FALSE] *)
Definition is_false (b : option bool) : bool :=
  match b with Some false => true | _ => false end.

(** The policy filters appended to every cohort statement. *)
Definition policy_ok (flags : Flags) (k : Key.t) (p : Plan.t) : bool :=
  (if SKIP_FROZEN flags then is_false (Key.is_frozen k) else true)
  && (if EXCLUDE_TRIALS flags then not_trial p else true).

(** [expiry_time - coalesce(duration_days, 0) * 86400000] *)
Definition prev_expiry_ms (k : Key.t) (p : Plan.t) : Z :=
  Key.expiry_time k - default 0 (Plan.duration_days p) * ms_per_day.

Definition in_window (x start_ms end_ms : Z) : bool :=
  (start_ms <=? x) && (x <? end_ms).

(** [keys JOIN plans ON keys.tariff_id = plans.id] *)
Definition joined (st : Store) : list (Key.t * Plan.t) :=
  k ← keys st;
  p ← filter (fun p => Plan.id p = Key.tariff_id k) (plans st);
  [(k, p)].

(** *** Per-plan snapshots *)

Module Info.
Record t := mk {
  count : Z;
  price : Q;
  period_months : option Z;
  group_code : option string;
  bucket : string;
}.
End Info.

(** One grouped result row:
    [(_id, name, gcode, count, price, duration)]. *)
Definition plan_row : Type :=
  Z * string * option string * Z * option Z * option Z.

(** [SELECT plan columns, count(client_id) ... WHERE cond GROUP BY plan columns]:
    one row per plan that has at least one joined key passing [cond]. *)
Definition grouped_by_plan (st : Store) (cond : Key.t -> Plan.t -> bool)
  : list plan_row :=
  p ← plans st;
  let cnt := Z.of_nat (length (filter
               (fun k => Plan.id p = Key.tariff_id k /\ cond k p = true)
               (keys st))) in
  if 0 <? cnt
  then [(Plan.id p, Plan.name p, Plan.group_code p, cnt,
         Plan.price_rub p, Plan.duration_days p)]
  else [].

(** [float(price or 0.0)] *)
Definition float_or_zero (price : option Z) : Q := inject_Z (default 0 price).

Definition info_of_row (gcode : option string) (count : Z) (price : option Z)
    (duration : option Z) : Info.t :=
  Info.mk count (float_or_zero price) (period_months_of duration) gcode
          (_bucket_plan gcode duration).

Definition get_expiring_by_plan (st : Store) (start_ms end_ms : Z)
    (flags : Flags) : gmap string Info.t :=
  let result := grouped_by_plan st (fun k p =>
      in_window (Key.expiry_time k) start_ms end_ms && policy_ok flags k p) in
  foldl (fun data '(_id, name, gcode, count, price, duration) =>
           <[name := info_of_row gcode count price duration]> data)
        ∅ result.

(** Python truthiness of a nullable number. *)
Definition truthy_Z (x : option Z) : bool :=
  match x with Some v => negb (v =? 0) | None => false end.

(** The loop over [result_prev] that fills [prev_data]. *)
Definition prev_data_step (prev_data : gmap string Info.t) (row : plan_row)
  : gmap string Info.t :=
  let '(_id, name, gcode, count, price, duration) := row in
  match prev_data !! name with
  | None => <[name := info_of_row gcode count price duration]> prev_data
  | Some entry =>
      let price' :=
        if truthy_Z price && negb (Qeq_bool (float_or_zero price) (Info.price entry))
        then float_or_zero price else Info.price entry in
      <[name := Info.mk (Info.count entry + count) price'
                        (Info.period_months entry) (Info.group_code entry)
                        (Info.bucket entry)]> prev_data
  end.

Definition get_prev_data (st : Store) (start_ms end_ms : Z) (flags : Flags)
  : gmap string Info.t :=
  let result_prev := grouped_by_plan st (fun k p =>
      in_window (prev_expiry_ms k p) start_ms end_ms && policy_ok flags k p) in
  foldl prev_data_step ∅ result_prev.

(** Body of [for name, info in src.items()] in the merge. *)
Definition merge_step (name : string) (info : Info.t)
    (merged : gmap string Info.t) : gmap string Info.t :=
  match merged !! name with
  | None => <[name := info]> merged
  | Some e =>
      let price' := if Qeq_bool (Info.price info) 0 then Info.price e
                    else Info.price info in
      <[name := Info.mk (Info.count e + Info.count info) price'
                        (Info.period_months e) (Info.group_code e)
                        (Info.bucket e)]> merged
  end.

(** [for src in (current, prev_data): ...] *)
Definition merge_sources (current prev_data : gmap string Info.t)
  : gmap string Info.t :=
  map_fold merge_step (map_fold merge_step ∅ current) prev_data.

Definition get_baseline_expiring_by_plan (st : Store) (start_ms end_ms : Z)
    (flags : Flags) : gmap string Info.t :=
  let current := get_expiring_by_plan st start_ms end_ms flags in
  let prev_data := get_prev_data st start_ms end_ms flags in
  merge_sources current prev_data.

(** ** Renewal probability estimator
    (the loop after the query in [estimate_auto_renewal_probs]) *)

(** A result row [(bucket, cohort, renewed)] of the cohort query. *)
Definition cohort_row : Type := string * option Z * option Z.

Definition totals_init : gmap string (Z * Z) :=
  <["1m" := (0, 0)]> (<["3m" := (0, 0)]> (<["12m" := (0, 0)]>
    (<["other" := (0, 0)]> ∅))).

Definition totals_step (totals : gmap string (Z * Z)) (row : cohort_row)
  : gmap string (Z * Z) :=
  let '(bucket, cohort, renewed) := row in
  let c := default 0 cohort in
  let r := default 0 renewed in
  let '(C, R) := default (0, 0) (totals !! bucket) in
  <[bucket := (C + c, R + r)]> totals.

Definition aggregate_totals (rows : list cohort_row) : gmap string (Z * Z) :=
  foldl totals_step totals_init rows.

(** [p = (R + 1) / (C + 2) if C > 0 else 1.0], then
    [max(0.0, min(1.0, float(p)))]. *)
Definition smoothed_prob (CR : Z * Z) : Q :=
  let '(C, R) := CR in
  let p := if 0 <? C then (inject_Z (R + 1) / inject_Z (C + 2))%Q else 1%Q in
  py_max 0 (py_min 1 p).

Definition estimate_auto_renewal_probs (rows : list cohort_row)
  : gmap string Q :=
  smoothed_prob <$> aggregate_totals rows.

(** ** Forecast compositor ([compute_forecast]) *)

(** [x or rest] where [x] is the result of [dict.get]: [None] and [0.0] are
    both falsy. *)
Definition py_or (x : option Q) (rest : Q) : Q :=
  match x with
  | Some v => if Qeq_bool v 0 then rest else v
  | None => rest
  end.

(** [probs or {}] *)
Definition dict_or_empty (probs : option (gmap string Q)) : gmap string Q :=
  default ∅ probs.

(** [overrides.get(key)] where [key] may itself be [None]. *)
Definition get_opt (overrides : gmap string Q) (key : option string)
  : option Q :=
  key ≫= fun k => overrides !! k.

Definition resolve_prob (overrides : gmap string Q) (global_prob : option Q)
    (code : string) (info : Info.t) : Q :=
  py_or (overrides !! code)
    (py_or (get_opt overrides (Info.group_code info))
       (py_or (overrides !! Info.bucket info)
          (match global_prob with Some g => g | None => 1%Q end))).

Module ByPlan.
Record t := mk {
  info : Info.t;
  expected : Q;
  prob : Q;
}.
End ByPlan.

Module Forecast.
Record t := mk {
  forecast : Q;
  received : Q;
  to_earn : Q;
  by_plans : gmap string ByPlan.t;
}.
End Forecast.

Definition expected_of (overrides : gmap string Q) (global_prob : option Q)
    (code : string) (info : Info.t) : Q :=
  (Info.price info * inject_Z (Info.count info)
   * resolve_prob overrides global_prob code info)%Q.

(** Body of [for code, info in expiring.items()]. *)
Definition forecast_step (overrides : gmap string Q) (global_prob : option Q)
    (code : string) (info : Info.t) (acc : Q * gmap string ByPlan.t)
  : Q * gmap string ByPlan.t :=
  let prob := resolve_prob overrides global_prob code info in
  let expected := expected_of overrides global_prob code info in
  ((acc.1 + expected)%Q, <[code := ByPlan.mk info expected prob]> acc.2).

Definition compute_forecast (expiring : gmap string Info.t)
    (received_dict : gmap string Q) (probs : option (gmap string Q))
    (global_prob : option Q) : Forecast.t :=
  let overrides := dict_or_empty probs in
  let '(forecast, by_plans) :=
    map_fold (forecast_step overrides global_prob) (0%Q, ∅) expiring in
  let received := default 0%Q (received_dict !! "net") in
  let to_earn := py_max 0 (forecast - received) in
  Forecast.mk forecast received to_earn by_plans.

(** ** Plan completion ([_render_summary], router.py) *)

(** The part of [settings] read by the report; [COMPLETION_MODE] is read
    with [getattr(settings, "COMPLETION_MODE", "cash")]. *)
Record Settings := {
  PLAN_PROB_OVERRIDES : option (gmap string Q);
  RENEWAL_PROBABILITY : option Q;
  COMPLETION_MODE : option string;
}.

Module Summary.
Record t := mk {
  data : Forecast.t;
  plan_baseline : Q;
  plan_completion_pct : option Q;
  plan_gap : Q;
}.
End Summary.

(** [probs_to_use, global_p]: the learned estimate is used only when there
    are neither overrides nor a global probability. *)
Definition probability_source (settings : Settings)
    (learned : gmap string Q) : gmap string Q * option Q :=
  let probs_to_use := dict_or_empty (PLAN_PROB_OVERRIDES settings) in
  let global_p := RENEWAL_PROBABILITY settings in
  match global_p with
  | None =>
      if bool_decide (size probs_to_use = 0%nat) then (learned, None)
      else (probs_to_use, global_p)
  | Some _ => (probs_to_use, global_p)
  end.

Definition Qlt_bool (a b : Q) : bool := negb (Qle_bool b a).

Definition completion_pct (mode : string) (plan_sum forecast_sum
    recognized_total fact_sum : Q) : option Q :=
  if Qlt_bool 0 plan_sum then
    if bool_decide (mode = "plan_vs_forecast") then
      Some (py_max 0 (py_min 100 ((plan_sum - forecast_sum) / plan_sum * 100)))
    else if bool_decide (mode = "accrual") then
      Some (recognized_total / plan_sum * 100)%Q
    else Some (fact_sum / plan_sum * 100)%Q
  else None.

Definition gap_of (mode : string) (plan_sum forecast_sum
    recognized_total fact_sum : Q) : Q :=
  if Qlt_bool 0 plan_sum then
    if bool_decide (mode = "plan_vs_forecast") then forecast_sum
    else if bool_decide (mode = "accrual") then
      py_max 0 (plan_sum - recognized_total)
    else py_max 0 (plan_sum - fact_sum)
  else 0%Q.

(** The figures [_render_summary] derives from the query results:
    [expiring], [baseline_expiring] and [received] are the three snapshot
    queries, [learned] is the estimator's map and [recognized_total] the
    total of the accrual query. *)
Definition render_summary_data (settings : Settings)
    (expiring baseline_expiring : gmap string Info.t)
    (received : gmap string Q) (learned : gmap string Q)
    (recognized_total : Q) : Summary.t :=
  let '(probs_to_use, global_p) := probability_source settings learned in
  let data := compute_forecast expiring received (Some probs_to_use) global_p in
  let baseline :=
    compute_forecast baseline_expiring
      (<["net" := 0%Q]> (<["paid" := 0%Q]> (<["refunds" := 0%Q]> ∅)))
      (Some probs_to_use) global_p in
  let plan_sum := Forecast.forecast baseline in
  let mode := default "cash" (COMPLETION_MODE settings) in
  Summary.mk data plan_sum
    (completion_pct mode plan_sum (Forecast.forecast data) recognized_total
       (Forecast.received data))
    (gap_of mode plan_sum (Forecast.forecast data) recognized_total
       (Forecast.received data)).

(** ** Retention and churn analyzer ([_calc_retention_churn]) *)

(** A candidate row [(expiry_ms, gcode, days, price, tg_id)]; a row rebuilt
    from a payment has [expiry_ms = None]. *)
Module Cand.
Record t := mk {
  expiry_ms : option Z;
  gcode : option string;
  days : option Z;
  price : option Z;
  tg_id : Z;
}.
End Cand.

(** [q_candidates]: joined keys whose implied previous-cycle expiry lies in
    the window, one row per subscription. *)
Definition q_candidates (st : Store) (start_ms end_ms : Z) (flags : Flags)
  : list Cand.t :=
  '(k, p) ← joined st;
  if in_window (prev_expiry_ms k p) start_ms end_ms && policy_ok flags k p
  then [Cand.mk (Some (Key.expiry_time k)) (Plan.group_code p)
                (Plan.duration_days p) (Plan.price_rub p) (Key.tg_id k)]
  else [].

(** [{tg for *_rest, tg in cand_rows}] *)
Definition tg_ids_of (cand_rows : list Cand.t) : gset Z :=
  list_to_set (Cand.tg_id <$> cand_rows).

Definition is_success (p : Payment.t) : bool :=
  bool_decide (Payment.status p = "success").

(** Accounts with a successful payment created in [[dt_start, dt_end)]. *)
Definition paid_in_month (st : Store) (dt_start dt_end : Z) : gset Z :=
  list_to_set (Payment.tg_id <$>
    filter (fun p => in_window (Payment.created_at p) dt_start dt_end = true
                     /\ is_success p = true) (payments st)).

(** [price_to_plan.setdefault(int(price_rub or 0), (int(dd or 30), gcode))]:
    the first plan listed for a price wins. *)
Definition or_30 (dd : option Z) : Z :=
  match dd with Some d => if d =? 0 then 30 else d | None => 30 end.

Definition price_to_plan_step (m : gmap Z (Z * option string)) (p : Plan.t)
  : gmap Z (Z * option string) :=
  let key := default 0 (Plan.price_rub p) in
  match m !! key with
  | Some _ => m
  | None => <[key := (or_30 (Plan.duration_days p), Plan.group_code p)]> m
  end.

Definition price_to_plan_of (st : Store) : gmap Z (Z * option string) :=
  foldl price_to_plan_step ∅ (plans st).

(** Sub-query [last_payments_ranked] with [rn = 1]: for every account its
    most recent successful payment created before [dt_end].  Among payments
    of one account with the same timestamp the database may pick any; the
    model keeps the one listed first. *)
Definition last_payment_step (dt_end : Z) (m : gmap Z Payment.t)
    (p : Payment.t) : gmap Z Payment.t :=
  if (Payment.created_at p <? dt_end) && is_success p then
    match m !! Payment.tg_id p with
    | Some q =>
        if Payment.created_at q <? Payment.created_at p
        then <[Payment.tg_id p := p]> m else m
    | None => <[Payment.tg_id p := p]> m
    end
  else m.

Definition last_pays (st : Store) (dt_end : Z) : list (Z * Payment.t) :=
  map_to_list (foldl (last_payment_step dt_end) ∅ (payments st)).

(** [int(round(float(amount or 0.0)))] *)
Definition price_key_of (amount : option Q) : Z := py_round (default 0%Q amount).

(** Body of the loop over [last_pays.all()]: the rows it appends. *)
Definition fallback_of (cand_tg_ids : gset Z)
    (price_to_plan : gmap Z (Z * option string)) (dt_start dt_end : Z)
    (row : Z * Payment.t) : list Cand.t :=
  let '(tg_id, pay) := row in
  if bool_decide (tg_id ∈ cand_tg_ids) then []
  else
    let price_key := price_key_of (Payment.amount pay) in
    match price_to_plan !! price_key with
    | None => []
    | Some (dd, gcode) =>
        let prev_expiry_dt :=
          Payment.created_at pay + (if dd =? 0 then 30 else dd) * ms_per_day in
        if in_window prev_expiry_dt dt_start dt_end
        then [Cand.mk None gcode (Some dd) (Some price_key) tg_id]
        else []
    end.

Definition fallback_rows (st : Store) (dt_start dt_end : Z)
    (cand_rows : list Cand.t) : list Cand.t :=
  row ← last_pays st dt_end;
  fallback_of (tg_ids_of cand_rows) (price_to_plan_of st) dt_start dt_end row.

(** [cand_rows] after [cand_rows.extend(fallback_rows)]. *)
Definition merged_candidates (st : Store) (dt_start dt_end : Z)
    (flags : Flags) : list Cand.t :=
  let cand_rows := q_candidates st dt_start dt_end flags in
  cand_rows ++ fallback_rows st dt_start dt_end cand_rows.

(** Loop state [(renewed, not_renewed, bucket_counts)]. *)
Record Tally := {
  renewed : Z;
  not_renewed : Z;
  bucket_counts : gmap string Z;
}.

Definition count_not_renewed (t : Tally) (c : Cand.t) : Tally :=
  let bucket := _bucket_plan (Cand.gcode c) (Cand.days c) in
  {| renewed := renewed t;
     not_renewed := not_renewed t + 1;
     bucket_counts :=
       <[bucket := default 0 (bucket_counts t !! bucket) + 1]> (bucket_counts t) |}.

Definition count_renewed (t : Tally) : Tally :=
  {| renewed := renewed t + 1;
     not_renewed := not_renewed t;
     bucket_counts := bucket_counts t |}.

Definition classify_step (end_ms : Z) (paid_in_month_tg : gset Z)
    (t : Tally) (c : Cand.t) : Tally :=
  match Cand.expiry_ms c with
  | Some expiry_ms =>
      if end_ms <=? expiry_ms then count_renewed t else count_not_renewed t c
  | None =>
      if bool_decide (Cand.tg_id c ∈ paid_in_month_tg) then count_renewed t
      else count_not_renewed t c
  end.

Definition classify (end_ms : Z) (paid_in_month_tg : gset Z)
    (cand_rows : list Cand.t) : Tally :=
  foldl (classify_step end_ms paid_in_month_tg)
        {| renewed := 0; not_renewed := 0; bucket_counts := ∅ |} cand_rows.

Module Retention.
Record t := mk {
  retention_rate : option Q;
  churn_rate : option Q;
  renewed_count : Z;
  not_renewed_yet : Z;
  predicted_churn : Q;
}.
End Retention.

(** [predicted_churn += (1.0 - float(p or 0.0)) * cnt] with
    [p = p_map.get(bucket, default_p)]. *)
Definition churn_step (p_map : gmap string Q) (default_p : Q)
    (bucket : string) (cnt : Z) (predicted_churn : Q) : Q :=
  let p := default default_p (p_map !! bucket) in
  (predicted_churn + (1 - p) * inject_Z cnt)%Q.

(** The report computed from the merged candidate rows. *)
Definition retention_of (cand_rows : list Cand.t) (end_ms : Z)
    (paid_in_month_tg : gset Z) (probs : option (gmap string Q))
    (global_prob : option Q) : Retention.t :=
  let candidates_total := Z.of_nat (length cand_rows) in
  if candidates_total =? 0 then Retention.mk None None 0 0 0%Q
  else
    let t := classify end_ms paid_in_month_tg cand_rows in
    let retention_rate := (inject_Z (renewed t) / inject_Z candidates_total)%Q in
    let churn_rate := (inject_Z (not_renewed t) / inject_Z candidates_total)%Q in
    let p_map := dict_or_empty probs in
    let default_p := match global_prob with Some g => g | None => 1%Q end in
    let predicted_churn :=
      map_fold (churn_step p_map default_p) 0%Q (bucket_counts t) in
    Retention.mk (Some retention_rate) (Some churn_rate) (renewed t)
                 (not_renewed t) predicted_churn.

Definition _calc_retention_churn (st : Store) (dt_start dt_end : Z)
    (flags : Flags) (probs : option (gmap string Q)) (global_prob : option Q)
  : Retention.t :=
  retention_of (merged_candidates st dt_start dt_end flags) dt_end
               (paid_in_month st dt_start dt_end) probs global_prob.

(** ** Input conditions used by the properties *)

Definition valid_info (info : Info.t) : Prop :=
  (0 <= Info.price info)%Q /\ 0 <= Info.count info.

Definition valid_snapshot (m : gmap string Info.t) : Prop :=
  forall code info, m !! code = Some info -> valid_info info.

Definition valid_probs (m : gmap string Q) : Prop :=
  forall k p, m !! k = Some p -> (0 <= p <= 1)%Q.

Definition valid_global (g : option Q) : Prop :=
  forall p, g = Some p -> (0 <= p <= 1)%Q.

Definition valid_received (m : gmap string Q) : Prop :=
  forall k v, m !! k = Some v -> (0 <= v)%Q.

(** The inputs of the report are valid: non-negative prices, counts and
    received amounts, probabilities in [[0, 1]]. *)
Record valid_inputs (settings : Settings)
    (expiring baseline_expiring : gmap string Info.t)
    (received learned : gmap string Q) : Prop := {
  valid_expiring : valid_snapshot expiring;
  valid_baseline : valid_snapshot baseline_expiring;
  valid_received_amounts : valid_received received;
  valid_overrides : valid_probs (dict_or_empty (PLAN_PROB_OVERRIDES settings));
  valid_learned : valid_probs learned;
  valid_global_prob : valid_global (RENEWAL_PROBABILITY settings);
}.

(** What one step of the merge leaves under a name: the entry itself when
    the name is new, otherwise the old entry with the count added and the
    price replaced by a non-zero incoming price. *)
Definition merge_entry (old : option Info.t) (info : Info.t) : Info.t :=
  match old with
  | None => info
  | Some e =>
      Info.mk (Info.count e + Info.count info)
              (if Qeq_bool (Info.price info) 0 then Info.price e
               else Info.price info)
              (Info.period_months e) (Info.group_code e) (Info.bucket e)
  end.

(** A month of 31 days starting at instant 0, one 30-day plan ["A"], five
    subscriptions expiring on day 10 and three that expire on day 40, that
    is, whose previous cycle ended on day 10. *)
Definition scenario_store : Store :=
  let key (tg expiry_day : Z) :=
    Key.mk tg "c" 1 (expiry_day * ms_per_day) (Some false) 0 in
  {| keys := [key 1 10; key 2 10; key 3 10; key 4 10; key 5 10;
              key 6 40; key 7 40; key 8 40];
     plans := [Plan.mk 1 "A" None (Some 30) (Some 100)];
     payments := [] |}.

Definition no_policy : Flags :=
  {| SKIP_FROZEN := false; EXCLUDE_TRIALS := false |}.

(** A 31-day month starting at instant 0.  Account 7 holds two
    subscriptions whose previous cycle ended in the month (one on the
    30-day plan, already renewed, one on the 7-day plan, not renewed) and an
    old payment of 100; account 9 has no subscription, only a payment of 100
    made 20 days before the month. *)
Definition retention_store : Store :=
  {| keys := [Key.mk 7 "a" 1 (40 * ms_per_day) (Some false) 0;
              Key.mk 7 "b" 2 (12 * ms_per_day) (Some false) 0];
     plans := [Plan.mk 1 "A" None (Some 30) (Some 100);
               Plan.mk 2 "W" None (Some 7) (Some 30)];
     payments := [Payment.mk 7 (Some 100%Q) "success" (-25 * ms_per_day);
                  Payment.mk 9 (Some 100%Q) "success" (-20 * ms_per_day)] |}.

(** The same month with one subscription per account: account 7 holds a
    subscription on the 30-day plan whose previous cycle ended in the month
    and an old payment of 100 that matches the plan's price; account 9 has
    no subscription, only such a payment. *)
Definition dedup_store : Store :=
  {| keys := [Key.mk 7 "a" 1 (40 * ms_per_day) (Some false) 0];
     plans := [Plan.mk 1 "A" None (Some 30) (Some 100);
               Plan.mk 2 "W" None (Some 7) (Some 30)];
     payments := [Payment.mk 7 (Some 100%Q) "success" (-25 * ms_per_day);
                  Payment.mk 9 (Some 100%Q) "success" (-20 * ms_per_day)] |}.

Definition empty_store : Store := {| keys := []; plans := []; payments := [] |}.

(** ** Calendar window ([get_month_bounds]) *)

(** A naive [datetime]; comparison of two values is field by field. *)
Module DateTime.
Record t := mk {
  year : Z;
  month : Z;
  day : Z;
  hour : Z;
  minute : Z;
  second : Z;
  microsecond : Z;
}.
End DateTime.

(** [datetime.MAXYEAR]: [replace(year=...)] beyond it raises [ValueError]. *)
Definition MAXYEAR : Z := 9999.

(** [None] stands for the [ValueError] of [replace]. *)
Definition get_month_bounds (now_utc : DateTime.t)
  : option (DateTime.t * DateTime.t) :=
  let start :=
    DateTime.mk (DateTime.year now_utc) (DateTime.month now_utc) 1 0 0 0 0 in
  if DateTime.month start =? 12 then
    if DateTime.year start + 1 <=? MAXYEAR
    then Some (start, DateTime.mk (DateTime.year start + 1) 1 1 0 0 0 0)
    else None
  else
    Some (start, DateTime.mk (DateTime.year start) (DateTime.month start + 1)
                             1 0 0 0 0).

(** Order of naive datetimes: lexicographic on the fields. *)
Fixpoint lex_lt (a b : list Z) : Prop :=
  match a, b with
  | x :: a', y :: b' => x < y \/ (x = y /\ lex_lt a' b')
  | _, _ => False
  end.

Definition dt_fields (d : DateTime.t) : list Z :=
  [DateTime.year d; DateTime.month d; DateTime.day d; DateTime.hour d;
   DateTime.minute d; DateTime.second d; DateTime.microsecond d].

Definition dt_lt (a b : DateTime.t) : Prop := lex_lt (dt_fields a) (dt_fields b).
Definition dt_le (a b : DateTime.t) : Prop := a = b \/ dt_lt a b.

(** Field ranges every [datetime] object satisfies. *)
Definition valid_datetime (d : DateTime.t) : Prop :=
  1 <= DateTime.year d <= MAXYEAR /\ 1 <= DateTime.month d <= 12
  /\ 1 <= DateTime.day d <= 31 /\ 0 <= DateTime.hour d <= 23
  /\ 0 <= DateTime.minute d <= 59 /\ 0 <= DateTime.second d <= 59
  /\ 0 <= DateTime.microsecond d <= 999999.

(** Months counted from year 0. *)
Definition month_index (d : DateTime.t) : Z :=
  12 * DateTime.year d + (DateTime.month d - 1).

Definition first_instant_of_month (d : DateTime.t) : Prop :=
  DateTime.day d = 1 /\ DateTime.hour d = 0 /\ DateTime.minute d = 0
  /\ DateTime.second d = 0 /\ DateTime.microsecond d = 0.

(** ** Table discovery ([resolve] inside [_reflect_tables]) *)

(** [x in cand] on strings. *)
Fixpoint contains (x cand : string) : bool :=
  String.prefix x cand
  || match cand with
     | EmptyString => false
     | String _ rest => contains x rest
     end.

Inductive lookup_result (A : Type) : Type :=
| Found (a : A)
| LookupError (msg : string).
Arguments Found {A} a.
Arguments LookupError {A} msg.

(** Truthiness of [name_hint]: [None] and the empty string are falsy. *)
Definition hint_truthy (name_hint : option string) : bool :=
  match name_hint with
  | Some h => negb (String.eqb h "")
  | None => false
  end.

Definition discovery_keywords : list string := ["key"; "plan"; "payment"].

Definition resolve (name_hint : option string) (candidates : list string)
  : lookup_result string :=
  let h := default "" name_hint in
  if hint_truthy name_hint && bool_decide (h ∈ candidates) then Found h
  else
    match find (fun cand => hint_truthy name_hint && String.prefix h cand)
               candidates with
    | Some cand => Found cand
    | None =>
        match find (fun cand =>
                      bool_decide (name_hint = None)
                      && existsb (fun x => contains x cand) discovery_keywords)
                   candidates with
        | Some cand => Found cand
        | None =>
            LookupError
              ("Table for " +:+ (if hint_truthy name_hint then h else "unknown")
               +:+ " not found")
        end
    end.

(** The test of the last loop of [resolve]:
    [any(x in cand for x in ("key", "plan", "payment"))]. *)
Definition has_keyword (cand : string) : bool :=
  existsb (fun x => contains x cand) discovery_keywords.

(** The three table names chosen by [_reflect_tables]: [tables_cfg] is
    [settings.DISCOVERY_FALLBACKS["tables"]], [table_names] the result of
    [insp.get_table_names()].  The first failing [resolve] aborts. *)
Definition reflect_table_names (tables_cfg : gmap string string)
    (table_names : list string) : lookup_result (string * string * string) :=
  match resolve (tables_cfg !! "keys") table_names with
  | LookupError msg => LookupError msg
  | Found key_table =>
      match resolve (tables_cfg !! "plans") table_names with
      | LookupError msg => LookupError msg
      | Found plan_table =>
          match resolve (tables_cfg !! "payments") table_names with
          | LookupError msg => LookupError msg
          | Found payment_table => Found (key_table, plan_table, payment_table)
          end
      end
  end.

(** ** The cohort query of [estimate_auto_renewal_probs]

    [months_ms] holds the rows of the CTE of that name, one
    [(start_ms, end_ms)] per trailing month; they are computed by the
    database from [now()] and enter here as data. *)

(** A row of the CTE [prepared]. *)
Module Prepared.
Record t := mk {
  bucket : string;
  expiry_time : Z;
  is_frozen : bool;
  group_code : option string;
  start_ms : Z;
  end_ms : Z;
}.
End Prepared.

(** CTEs [plans], [base], [filtered] and [prepared]. *)
Definition cohort_prepared (st : Store) (months_ms : list (Z * Z))
  : list Prepared.t :=
  '(k, p) ← joined st;
  let duration_days := plans_duration_days (Plan.duration_days p) in
  let prev_ms := Key.expiry_time k - duration_days * ms_per_day in
  '(start_ms, end_ms) ← months_ms;
  if in_window prev_ms start_ms end_ms
  then [Prepared.mk (prepared_bucket duration_days) (Key.expiry_time k)
                    (default false (Key.is_frozen k)) (Plan.group_code p)
                    start_ms end_ms]
  else [].

(** [a IS DISTINCT FROM 'lit'] *)
Definition is_distinct_from (a : option string) (lit : string) : bool :=
  negb (bool_decide (a = Some lit)).

(** The [WHERE] clause; [AND] binds tighter than [OR]:
    [skip_frozen IS FALSE OR (is_frozen IS FALSE AND
      (exclude_trials IS FALSE OR group_code IS DISTINCT FROM 'trial'))]. *)
Definition cohort_where (flags : Flags) (r : Prepared.t) : bool :=
  negb (SKIP_FROZEN flags)
  || (negb (Prepared.is_frozen r)
      && (negb (EXCLUDE_TRIALS flags)
          || is_distinct_from (Prepared.group_code r) "trial")).

(** [SELECT bucket, COUNT( * ), COUNT( * ) FILTER (WHERE expiry_time >=
    end_ms + grace_ms) ... GROUP BY bucket] *)
Definition cohort_query (st : Store) (months_ms : list (Z * Z)) (grace_ms : Z)
    (flags : Flags) : list cohort_row :=
  let kept := filter (fun r => cohort_where flags r = true)
                     (cohort_prepared st months_ms) in
  bucket ← remove_dups (Prepared.bucket <$> kept);
  let group := filter (fun r => Prepared.bucket r = bucket) kept in
  let renewed := filter (fun r => Prepared.end_ms r + grace_ms
                                  <= Prepared.expiry_time r) group in
  [(bucket, Some (Z.of_nat (length group)), Some (Z.of_nat (length renewed)))].

(** The whole of [estimate_auto_renewal_probs]: query, then smoothing. *)
Definition estimate_over_store (st : Store) (months_ms : list (Z * Z))
    (grace_days : Z) (flags : Flags) : gmap string Q :=
  estimate_auto_renewal_probs
    (cohort_query st months_ms (grace_days * ms_per_day) flags).

Definition four_buckets : list string := ["1m"; "3m"; "12m"; "other"].

(** The rows behind one result row of the query: the kept rows of a bucket
    and, among them, those counted as renewed. *)
Definition cohort_members (st : Store) (months_ms : list (Z * Z))
    (flags : Flags) (bucket : string) : list Prepared.t :=
  filter (fun r => Prepared.bucket r = bucket)
    (filter (fun r => cohort_where flags r = true)
            (cohort_prepared st months_ms)).

Definition cohort_renewed (st : Store) (months_ms : list (Z * Z))
    (grace_ms : Z) (flags : Flags) (bucket : string) : list Prepared.t :=
  filter (fun r => Prepared.end_ms r + grace_ms <= Prepared.expiry_time r)
         (cohort_members st months_ms flags bucket).

(** ** Cash received ([get_received]) *)

(** [SUM(amount)] over rows; a NULL amount adds nothing and the sum of no
    rows is coalesced to 0. *)
Definition sum_amounts (rows : list Payment.t) : Q :=
  foldr (fun p s => (default 0%Q (Payment.amount p) + s)%Q) 0%Q rows.

Definition successful_in (st : Store) (dt_start dt_end : Z) : list Payment.t :=
  filter (fun p => in_window (Payment.created_at p) dt_start dt_end = true
                   /\ is_success p = true) (payments st).

Definition get_received (st : Store) (dt_start dt_end : Z) (flags : Flags)
  : gmap string Q :=
  let paid := sum_amounts (successful_in st dt_start dt_end) in
  <["paid" := paid]> (<["refunds" := 0%Q]> (<["net" := paid]> ∅)).

(** [received_dict.get("net", 0.0)], as [compute_forecast] reads it. *)
Definition net_of (received_dict : gmap string Q) : Q :=
  default 0%Q (received_dict !! "net").

(** ** Monthly run-rate of the active base ([_calc_mrr_active_base]) *)

(** Grouping key [(group_code, price_rub, duration_days)]. *)
Definition mrr_key (kp : Key.t * Plan.t) : option string * option Z * option Z :=
  (Plan.group_code kp.2, Plan.price_rub kp.2, Plan.duration_days kp.2).

(** Joined rows with [expiry_time > now_ms] that pass the policy. *)
Definition mrr_active_rows (st : Store) (now_ms : Z) (flags : Flags)
  : list (Key.t * Plan.t) :=
  filter (fun kp => now_ms < Key.expiry_time kp.1
                    /\ policy_ok flags kp.1 kp.2 = true) (joined st).

(** Result rows [(code, count, price, duration)], one per group. *)
Definition mrr_rows (st : Store) (now_ms : Z) (flags : Flags)
  : list (option string * Z * option Z * option Z) :=
  let active := mrr_active_rows st now_ms flags in
  g ← remove_dups (mrr_key <$> active);
  [(g.1.1, Z.of_nat (length (filter (fun kp => mrr_key kp = g) active)),
    g.1.2, g.2)].

(** [months = round((duration or 0) / 30) if duration else 1], then
    [months if months and months > 0 else 1]. *)
Definition mrr_months (duration : option Z) : Z :=
  let months :=
    match duration with
    | Some d => if d =? 0 then 1 else py_round (inject_Z d / 30)
    | None => 1
    end in
  if negb (months =? 0) && (0 <? months) then months else 1.

Definition mrr_term (price : option Z) (duration : option Z) (count : Z) : Q :=
  (float_or_zero price / inject_Z (mrr_months duration) * inject_Z count)%Q.

(** [now_ms] is [int(datetime.utcnow().timestamp() * 1000)]. *)
Definition _calc_mrr_active_base (st : Store) (now_ms : Z) (flags : Flags) : Q :=
  foldl (fun mrr_active '(code, count, price, duration) =>
           (mrr_active + mrr_term price duration count)%Q)
        0%Q (mrr_rows st now_ms flags).

(** ** KPIs ([calc_kpis]) *)

Module Kpis.
Record t := mk {
  avg_check : Q;
  paid_count : Z;
  active_users : Z;
  arpu : Q;
  mrr_active : Q;
  retention : Retention.t;
}.
End Kpis.

(** [sum(case((status == "success", amount), else_=0.0))] over the payments
    created in the window. *)
Definition kpi_paid_sum (st : Store) (dt_start dt_end : Z) : Q :=
  foldr (fun p s =>
           ((if is_success p then default 0%Q (Payment.amount p) else 0) + s)%Q)
        0%Q
        (filter (fun p => in_window (Payment.created_at p) dt_start dt_end = true)
                (payments st)).

(** [count().filter(status == "success")] over the same rows. *)
Definition kpi_paid_count (st : Store) (dt_start dt_end : Z) : Z :=
  Z.of_nat (length (filter (fun p => is_success p = true)
    (filter (fun p => in_window (Payment.created_at p) dt_start dt_end = true)
            (payments st)))).

(** [count(distinct tg_id)] of the keys created up to the window end,
    expiring at or after its start and, under [SKIP_FROZEN], not frozen. *)
Definition kpi_active_users (st : Store) (dt_start dt_end : Z) (flags : Flags)
  : Z :=
  let rows :=
    filter (fun k => Key.created_at k <= dt_end /\ dt_start <= Key.expiry_time k
                     /\ (if SKIP_FROZEN flags then is_false (Key.is_frozen k)
                         else true) = true) (keys st) in
  Z.of_nat (size (list_to_set (Key.tg_id <$> rows) : gset Z)).

(** The argument [by_plans] of the source is not read and is left out;
    [now_ms] is the clock read by [_calc_mrr_active_base]. *)
Definition calc_kpis (st : Store) (dt_start dt_end now_ms : Z) (flags : Flags)
    (probs : option (gmap string Q)) (global_prob : option Q) : Kpis.t :=
  let paid_sum := kpi_paid_sum st dt_start dt_end in
  let paid_count := kpi_paid_count st dt_start dt_end in
  let avg_check :=
    if 0 <? paid_count then (paid_sum / inject_Z paid_count)%Q else 0%Q in
  let active_users := kpi_active_users st dt_start dt_end flags in
  let arpu :=
    if 0 <? active_users then (paid_sum / inject_Z active_users)%Q else 0%Q in
  Kpis.mk avg_check paid_count active_users arpu
          (_calc_mrr_active_base st now_ms flags)
          (_calc_retention_churn st dt_start dt_end flags probs global_prob).

(** ** Accrual recognition ([get_recognized_revenue_accrual]) *)

(** Here a missing duration counts as 30 days:
    [expiry_time - coalesce(duration_days, 30) * 86400000]. *)
Definition accrual_prev_expiry_ms (k : Key.t) (p : Plan.t) : Z :=
  Key.expiry_time k - default 30 (Plan.duration_days p) * ms_per_day.

Module Recognized.
Record t := mk {
  count : Z;
  price : Q;
  sum : Q;
  period_months : option Z;
  group_code : option string;
}.
End Recognized.

Definition accrual_rows (st : Store) (start_ms now_ms : Z) (flags : Flags)
  : list plan_row :=
  grouped_by_plan st (fun k p =>
    in_window (accrual_prev_expiry_ms k p) start_ms now_ms
    && policy_ok flags k p).

Definition accrual_step (acc : Q * gmap string Recognized.t) (row : plan_row)
  : Q * gmap string Recognized.t :=
  let '(_id, name, gcode, cnt, price, dur) := row in
  let price := float_or_zero price in
  let s := (inject_Z cnt * price)%Q in
  ((acc.1 + s)%Q,
   <[name := Recognized.mk cnt price s (period_months_of dur) gcode]> acc.2).

(** The pair [(total, by_plans)] of the returned dict. *)
Definition get_recognized_revenue_accrual (st : Store) (dt_start dt_now : Z)
    (flags : Flags) : Q * gmap string Recognized.t :=
  foldl accrual_step (0%Q, ∅) (accrual_rows st dt_start dt_now flags).


(** No plan of the store has a negative price. *)
Definition nonneg_prices (st : Store) : Prop :=
  forall p, p ∈ plans st -> 0 <= default 0 (Plan.price_rub p).

(** Number of keys of plan [p] that satisfy [cond]. *)
Definition plan_count (st : Store) (cond : Key.t -> Plan.t -> bool)
    (p : Plan.t) : Z :=
  Z.of_nat (length (filter
    (fun k => Plan.id p = Key.tariff_id k /\ cond k p = true) (keys st))).


(** Reading a grouped result row. *)
Definition row_name (row : plan_row) : string := row.1.1.1.1.2.

Definition row_info (row : plan_row) : Info.t :=
  info_of_row row.1.1.1.2 row.1.1.2 row.1.2 row.2.

(** The grouped row of plan [p] under [cond]. *)
Definition row_of_plan (st : Store) (cond : Key.t -> Plan.t -> bool)
    (p : Plan.t) : plan_row :=
  (Plan.id p, Plan.name p, Plan.group_code p, plan_count st cond p,
   Plan.price_rub p, Plan.duration_days p).

(** The two conditions of the snapshot queries. *)
Definition expiring_cond (start_ms end_ms : Z) (flags : Flags)
    (k : Key.t) (p : Plan.t) : bool :=
  in_window (Key.expiry_time k) start_ms end_ms && policy_ok flags k p.

Definition prev_cycle_cond (start_ms end_ms : Z) (flags : Flags)
    (k : Key.t) (p : Plan.t) : bool :=
  in_window (prev_expiry_ms k p) start_ms end_ms && policy_ok flags k p.

(** Every entry has a count of at least one and a non-negative price. *)
Definition entries_ok (m : gmap string Info.t) : Prop :=
  forall n i, m !! n = Some i -> 1 <= Info.count i /\ (0 <= Info.price i)%Q.

(** Sum of the per-bucket counts. *)
Definition sum_counts (m : gmap string Z) : Z :=
  map_fold (fun _ v s => v + s) 0 m.

(** Full value of a snapshot: every subscription renews at its plan price. *)
Definition snapshot_value (m : gmap string Info.t) : Q :=
  foldr (fun ci s => (s + Info.price ci.2 * inject_Z (Info.count ci.2))%Q) 0%Q
        (map_to_list m).

(** ** Blank-line squeezing (the loop over [parts] in [texts.render_summary]) *)

(** Loop state [(out, last_blank)]. *)
Definition squeeze_step (acc : list string * bool) (p : string)
  : list string * bool :=
  if String.eqb p ""
  then ((if acc.2 then acc.1 else acc.1 ++ [p])%list, true)
  else ((acc.1 ++ [p])%list, false).

Definition squeeze_blanks (parts : list string) : list string :=
  (foldl squeeze_step ([], false) parts).1.

Fixpoint no_adjacent_blanks (l : list string) : Prop :=
  match l with
  | a :: (b :: _) as rest => ~ (a = "" /\ b = "") /\ no_adjacent_blanks rest
  | _ => True
  end.

(** The same loop as a recursion on the remaining parts. *)
Fixpoint squeeze_from (last_blank : bool) (parts : list string) : list string :=
  match parts with
  | [] => []
  | p :: rest =>
      if String.eqb p ""
      then (if last_blank then squeeze_from true rest
            else p :: squeeze_from true rest)
      else p :: squeeze_from false rest
  end.

(** ** Classification of a candidate (the tests of the loop in
    [_calc_retention_churn]) *)
Definition is_renewed (end_ms : Z) (paid_in_month_tg : gset Z) (c : Cand.t)
  : bool :=
  match Cand.expiry_ms c with
  | Some expiry_ms => end_ms <=? expiry_ms
  | None => bool_decide (Cand.tg_id c ∈ paid_in_month_tg)
  end.

(** Sum of the counts of a snapshot. *)
Definition total_count (m : gmap string Info.t) : Z :=
  map_fold (fun _ i s => Info.count i + s) 0 m.

(** * Properties *)

(** ** Rounding *)

Lemma months_of_duration_some (d : Z) :
  months_of_duration (Some d) = if d =? 0 then 0 else round_half_even_div d 30.
Proof.
  unfold months_of_duration, py_round. destruct (d =? 0); [reflexivity|].
  cbn [Qnum Qden Qdiv Qmult Qinv inject_Z].
  change (Z.pos (1 * 30)) with 30. now rewrite Z.mul_1_r.
Qed.

(** [round_half_even_div d 30] is the integer nearest to [d / 30], and at a
    tie the even one. *)
Lemma round_half_even_div_30 (d m : Z) :
  round_half_even_div d 30 = m <->
  30 * m - 15 < d < 30 * m + 15
  \/ (Z.even m = true /\ (d = 30 * m - 15 \/ d = 30 * m + 15)).
Proof.
  unfold round_half_even_div.
  pose proof (Z.div_mod d 30 ltac:(lia)) as Hd.
  pose proof (Z.mod_pos_bound d 30 ltac:(lia)) as Hr.
  set (q := d / 30) in *. set (r := d mod 30) in *.
  destruct (Z.ltb_spec (2 * r) 30); [lia|].
  destruct (Z.ltb_spec 30 (2 * r)); [lia|].
  assert (r = 15) as Hr15 by lia.
  destruct (Z.even q) eqn:E.
  - split.
    + intros <-. right. split; [exact E | lia].
    + intros [?|[Hm [?|?]]]; [lia| |lia].
      assert (m = q + 1) as -> by lia.
      rewrite Z.even_add, E in Hm. discriminate.
  - split.
    + intros <-. right. split; [|lia].
      rewrite Z.even_add, E. reflexivity.
    + intros [?|[Hm [?|?]]]; [lia|lia|].
      assert (m = q) as -> by lia. congruence.
Qed.

Lemma months_bounds (d : Z) :
  let m := months_of_duration (Some d) in
  30 * m - 15 < d < 30 * m + 15
  \/ (Z.even m = true /\ (d = 30 * m - 15 \/ d = 30 * m + 15)).
Proof.
  intros m. subst m. rewrite months_of_duration_some.
  destruct (Z.eqb_spec d 0) as [->|_]; [left; lia|].
  now apply round_half_even_div_30.
Qed.





(** ** Plan bucket classifier *)

Lemma bucket_plan_canonical (g : string) (duration_days : option Z) :
  g ∈ canonical_codes -> _bucket_plan (Some g) duration_days = g.
Proof.
  intros Hg. unfold _bucket_plan. now rewrite bool_decide_eq_true_2.
Qed.

Lemma bucket_plan_by_duration (group_code : option string)
    (duration_days : option Z) :
  (forall g, group_code = Some g -> g ∉ canonical_codes) ->
  _bucket_plan group_code duration_days
  = bucket_of_months (months_of_duration duration_days).
Proof.
  intros Hg. unfold _bucket_plan. destruct group_code as [g|]; [|reflexivity].
  rewrite bool_decide_eq_false_2; [reflexivity|]. now apply Hg.
Qed.

Lemma bucket_of_months_range (months : Z) :
  bucket_of_months months ∈ ["1m"; "3m"; "12m"; "other"].
Proof.
  unfold bucket_of_months.
  destruct (months =? 1); [set_solver|].
  destruct (months =? 3); [set_solver|].
  destruct ((10 <=? months) && (months <=? 13)); set_solver.
Qed.

(** C7. [_bucket_plan] is a total function of its two arguments.  A
    [group_code] that is exactly ["1m"], ["3m"] or ["12m"] is returned as it
    is, whatever the duration (so [("1m", 97)] gives ["1m"] although 97 days
    alone give ["3m"]).  Otherwise, with [months] the integer nearest to
    [duration_days / 30] (0 for a missing or zero duration), 1 gives ["1m"],
    3 gives ["3m"], 10 to 13 give ["12m"] and everything else, a missing
    duration included, gives ["other"].  The result is always one of the
    four buckets. *)
Theorem bucket_plan_classifier (group_code : option string)
    (duration_days : option Z) :
  let months := months_of_duration duration_days in
  let out := _bucket_plan group_code duration_days in
  (forall g, group_code = Some g -> g ∈ ["1m"; "3m"; "12m"] -> out = g)
  /\ ((forall g, group_code = Some g -> g ∉ ["1m"; "3m"; "12m"]) ->
      (months = 1 -> out = "1m")
      /\ (months = 3 -> out = "3m")
      /\ (10 <= months <= 13 -> out = "12m")
      /\ (months <> 1 -> months <> 3 -> ~ 10 <= months <= 13 -> out = "other")
      /\ (duration_days = None -> out = "other"))
  /\ (forall d, duration_days = Some d ->
        30 * months - 15 <= d <= 30 * months + 15)
  /\ (duration_days = None -> months = 0)
  /\ out ∈ ["1m"; "3m"; "12m"; "other"]
  /\ _bucket_plan (Some "1m") (Some 97) = "1m"
  /\ _bucket_plan None (Some 97) = "3m".
Proof.
  intros months out. repeat split.
  - intros g -> Hg. now apply bucket_plan_canonical.
  - subst out. rewrite bucket_plan_by_duration by assumption.
    intros Hm. fold months. now rewrite Hm.
  - subst out. rewrite bucket_plan_by_duration by assumption.
    intros Hm. fold months. now rewrite Hm.
  - subst out. rewrite bucket_plan_by_duration by assumption.
    fold months. intros Hm. unfold bucket_of_months.
    destruct (Z.eqb_spec months 1); [lia|].
    destruct (Z.eqb_spec months 3); [lia|].
    destruct (Z.leb_spec 10 months), (Z.leb_spec months 13); cbn; (reflexivity || lia).
  - subst out. rewrite bucket_plan_by_duration by assumption.
    fold months. intros H1 H3 H12. unfold bucket_of_months.
    destruct (Z.eqb_spec months 1); [lia|].
    destruct (Z.eqb_spec months 3); [lia|].
    destruct (Z.leb_spec 10 months), (Z.leb_spec months 13); cbn; (reflexivity || lia).
  - subst out. rewrite bucket_plan_by_duration by assumption.
    intros ->. reflexivity.
  - subst months. rewrite H. pose proof (months_bounds d) as Hb. cbn zeta in Hb. lia.
  - subst months. rewrite H. pose proof (months_bounds d) as Hb. cbn zeta in Hb. lia.
  - intros ->. reflexivity.
  - subst out. unfold _bucket_plan. destruct group_code as [g|].
    + case_bool_decide as Hg; [|apply bucket_of_months_range].
      unfold canonical_codes in Hg. apply list_elem_of_In in Hg.
      apply list_elem_of_In. cbn in *. tauto.
    + apply bucket_of_months_range.
Qed.

Lemma bucket_plan_classifier_witness :
  _bucket_plan (Some "1m") (Some 97) = "1m"
  /\ _bucket_plan (Some "trial") (Some 365) = "12m"
  /\ _bucket_plan None None = "other".
Proof.
  split; [|split].
  - apply (proj1 (bucket_plan_classifier (Some "1m") (Some 97)) "1m").
    + reflexivity.
    + apply list_elem_of_here.
  - apply (proj1 (proj2 (bucket_plan_classifier (Some "trial") (Some 365)))).
    + intros g [= <-]. intros Hin. apply list_elem_of_In in Hin. cbn in Hin.
      intuition discriminate.
    + vm_compute. split; discriminate.
  - apply (proj1 (proj2 (bucket_plan_classifier None None))).
    + intros g [=].
    + reflexivity.
Defined.

(** ** Cohort query grouping against the classifier *)




(** The query never reads the tag: a canonical [group_code] agrees with it
    only when the duration happens to fall in the matching range, and a
    plan without stored duration is grouped as a 30-day plan. *)
Lemma cohort_query_bucket_ignores_tag :
  cohort_query_bucket (Some "1m") (Some 97) = "3m"
  /\ _bucket_plan (Some "1m") (Some 97) = "1m"
  /\ cohort_query_bucket None None = "1m"
  /\ _bucket_plan None None = "other".
Proof. repeat split. Qed.

(** ** Python [max] and [min] on rationals *)

Lemma py_max_spec (a b : Q) :
  (b <= a /\ py_max a b = a)%Q \/ (a < b /\ py_max a b = b)%Q.
Proof.
  unfold py_max. destruct (Qle_bool b a) eqn:E.
  - left. split; [now apply Qle_bool_iff | reflexivity].
  - right. split; [|reflexivity]. apply Qnot_le_lt. intros H.
    apply Qle_bool_iff in H. congruence.
Qed.

Lemma py_min_spec (a b : Q) :
  (a <= b /\ py_min a b = a)%Q \/ (b < a /\ py_min a b = b)%Q.
Proof.
  unfold py_min. destruct (Qle_bool a b) eqn:E.
  - left. split; [now apply Qle_bool_iff | reflexivity].
  - right. split; [|reflexivity]. apply Qnot_le_lt. intros H.
    apply Qle_bool_iff in H. congruence.
Qed.

Lemma py_max_lower (a b : Q) : (a <= py_max a b)%Q.
Proof.
  destruct (py_max_spec a b) as [[_ ->]|[H ->]];
    [apply Qle_refl | now apply Qlt_le_weak].
Qed.

Lemma py_max_0_eq (x : Q) : (py_max 0 x == Qmax 0 x)%Q.
Proof.
  destruct (py_max_spec 0 x) as [[H ->]|[H ->]].
  - symmetry. now apply Q.max_l.
  - symmetry. apply Q.max_r. now apply Qlt_le_weak.
Qed.

Lemma clamp_inside (lo hi x : Q) :
  (lo < x)%Q -> (x < hi)%Q -> py_max lo (py_min hi x) = x.
Proof.
  intros Hlo Hhi.
  destruct (py_min_spec hi x) as [[H _]|[_ ->]].
  - exfalso. apply (Qlt_irrefl x). now apply Qlt_le_trans with hi.
  - destruct (py_max_spec lo x) as [[H _]|[_ ->]]; [|reflexivity].
    exfalso. apply (Qlt_irrefl x). now apply Qle_lt_trans with lo.
Qed.

(** ** Renewal probability estimator *)

Lemma laplace_strictly_inside (C R : Z) :
  0 < C -> 0 <= R <= C ->
  (0 < inject_Z (R + 1) / inject_Z (C + 2)
   /\ inject_Z (R + 1) / inject_Z (C + 2) < 1)%Q.
Proof.
  intros HC HR.
  assert (0 < inject_Z (C + 2))%Q as Hden.
  { change 0%Q with (inject_Z 0). rewrite <- Zlt_Qlt. lia. }
  split.
  - apply Qlt_shift_div_l; [exact Hden|]. rewrite Qmult_0_l.
    change 0%Q with (inject_Z 0). rewrite <- Zlt_Qlt. lia.
  - apply Qlt_shift_div_r; [exact Hden|]. rewrite Qmult_1_l.
    rewrite <- Zlt_Qlt. lia.
Qed.

Lemma smoothed_prob_positive_cohort (C R : Z) :
  0 < C -> 0 <= R <= C ->
  smoothed_prob (C, R) = (inject_Z (R + 1) / inject_Z (C + 2))%Q.
Proof.
  intros HC HR. unfold smoothed_prob.
  destruct (Z.ltb_spec 0 C); [|lia].
  destruct (laplace_strictly_inside C R HC HR). now apply clamp_inside.
Qed.

Lemma smoothed_prob_empty_cohort (C R : Z) :
  C <= 0 -> smoothed_prob (C, R) = 1%Q.
Proof.
  intros HC. unfold smoothed_prob.
  destruct (Z.ltb_spec 0 C); [lia|]. reflexivity.
Qed.

(** The four canonical buckets always have an entry in [totals]. *)
Lemma aggregate_totals_has_defaults (rows : list cohort_row) (b : string) :
  b ∈ ["1m"; "3m"; "12m"; "other"] -> is_Some (aggregate_totals rows !! b).
Proof.
  intros Hb. unfold aggregate_totals.
  assert (is_Some (totals_init !! b)) as Hinit.
  { apply list_elem_of_In in Hb. cbn in Hb.
    destruct Hb as [<-|[<-|[<-|[<-|[]]]]]; vm_compute; eauto. }
  revert Hinit. generalize totals_init. induction rows as [|row rows IH]; intros t Ht.
  - exact Ht.
  - cbn [foldl]. apply IH. destruct row as [[bucket cohort] renewed].
    unfold totals_step. destruct (default (0, 0) (t !! bucket)) as [C R].
    destruct (decide (bucket = b)) as [->|Hne].
    + rewrite lookup_insert_eq. eauto.
    + now rewrite lookup_insert_ne.
Qed.

(** C1 as stated fails: with no history at all the bucket ["1m"] has the
    empty cohort [(0, 0)] and the estimator returns [1], not [1/2]. *)
Lemma estimate_empty_cohort_is_one :
  aggregate_totals [] !! "1m" = Some (0, 0)
  /\ exists p, estimate_auto_renewal_probs [] !! "1m" = Some p
       /\ (p == 1)%Q /\ ~ (p == 1 # 2)%Q /\ ~ (p < 1)%Q.
Proof.
  split; [reflexivity|]. exists 1%Q.
  split; [reflexivity|]. split; [reflexivity|].
  split; intros H; discriminate H.
Qed.

(** C1, amended.  For every bucket of the aggregated cohort map with cohort
    size [C > 0] and renewed count [0 <= R <= C] the estimator returns
    [p = (R + 1) / (C + 2)], and [0 < p < 1]; for an empty cohort ([C = 0])
    it returns [1]. *)
Theorem estimate_laplace_smoothing (rows : list cohort_row) (b : string)
    (C R : Z) :
  aggregate_totals rows !! b = Some (C, R) ->
  0 <= R <= C ->
  exists p, estimate_auto_renewal_probs rows !! b = Some p
    /\ (0 < C -> (p == inject_Z (R + 1) / inject_Z (C + 2))%Q
                 /\ (0 < p)%Q /\ (p < 1)%Q)
    /\ (C = 0 -> (p == 1)%Q).
Proof.
  intros Hb HR. exists (smoothed_prob (C, R)).
  unfold estimate_auto_renewal_probs. rewrite lookup_fmap, Hb. cbn [fmap option_fmap option_map].
  split; [reflexivity|]. split.
  - intros HC. rewrite smoothed_prob_positive_cohort by assumption.
    destruct (laplace_strictly_inside C R HC HR).
    split; [reflexivity|split; assumption].
  - intros ->. now rewrite smoothed_prob_empty_cohort.
Qed.

Lemma estimate_laplace_smoothing_witness :
  exists p, estimate_auto_renewal_probs [("1m", Some 8, Some 5)] !! "1m" = Some p
    /\ (p == 6 # 10)%Q /\ (0 < p)%Q /\ (p < 1)%Q.
Proof.
  destruct (estimate_laplace_smoothing [("1m", Some 8, Some 5)] "1m" 8 5
              eq_refl ltac:(lia)) as (p & Hp & Hpos & _).
  exists p. split; [exact Hp|].
  destruct (Hpos ltac:(lia)) as (Heq & H0 & H1).
  split; [|split; assumption]. rewrite Heq. reflexivity.
Defined.

(** Rows as the query returns them ([renewed] counts a subset of [cohort])
    keep [0 <= R <= C] in every entry of [totals]. *)
Lemma aggregate_totals_bounds (rows : list cohort_row) (b : string) (C R : Z) :
  Forall (fun row : cohort_row => 0 <= default 0 row.2 <= default 0 row.1.2) rows ->
  aggregate_totals rows !! b = Some (C, R) -> 0 <= R <= C.
Proof.
  intros Hrows. unfold aggregate_totals.
  assert (forall b C R, totals_init !! b = Some (C, R) -> 0 <= R <= C) as Hinit.
  { intros b' C' R'. unfold totals_init.
    rewrite !lookup_insert. repeat case_decide; intros [= <- <-] || intros [=]; lia. }
  revert b C R. generalize dependent totals_init.
  induction Hrows as [|[[bucket cohort] renewed] rows Hrow _ IH]; intros t Ht.
  - exact Ht.
  - cbn [foldl]. apply IH. intros b C R. unfold totals_step.
    destruct (t !! bucket) as [[C0 R0]|] eqn:E; cbn [default from_option id].
    + rewrite lookup_insert. case_decide; [|apply Ht].
      intros [= <- <-]. specialize (Ht _ _ _ E). cbn in Hrow. lia.
    + rewrite lookup_insert. case_decide; [|apply Ht].
      intros [= <- <-]. cbn in Hrow. lia.
Qed.

Example estimate_two_buckets :
  let probs := estimate_auto_renewal_probs [("1m", Some 8, Some 5)] in
  probs !! "1m" = Some (6 # 10)%Q
  /\ probs !! "3m" = Some 1%Q
  /\ probs !! "trial" = None.
Proof. cbn zeta. repeat split. Qed.

(** ** Forecast compositor *)

Lemma compute_forecast_unfold (expiring : gmap string Info.t)
    (received_dict : gmap string Q) (probs : option (gmap string Q))
    (global_prob : option Q) :
  let acc := map_fold (forecast_step (dict_or_empty probs) global_prob)
                      (0%Q, ∅) expiring in
  let received := default 0%Q (received_dict !! "net") in
  compute_forecast expiring received_dict probs global_prob
  = Forecast.mk acc.1 received (py_max 0 (acc.1 - received)) acc.2.
Proof.
  cbn zeta. unfold compute_forecast.
  destruct (map_fold _ _ expiring) as [forecast by_plans]. reflexivity.
Qed.

Lemma compute_forecast_to_earn (expiring : gmap string Info.t)
    (received_dict : gmap string Q) (probs : option (gmap string Q))
    (global_prob : option Q) :
  let f := compute_forecast expiring received_dict probs global_prob in
  Forecast.to_earn f = py_max 0 (Forecast.forecast f - Forecast.received f).
Proof. cbn zeta. rewrite compute_forecast_unfold. reflexivity. Qed.

(** Every entry of [by_plans] carries its plan's resolved probability and
    [price * count * prob]. *)
Lemma compute_forecast_by_plans (expiring : gmap string Info.t)
    (received_dict : gmap string Q) (probs : option (gmap string Q))
    (global_prob : option Q) (code : string) :
  Forecast.by_plans (compute_forecast expiring received_dict probs global_prob)
    !! code
  = (fun info =>
       ByPlan.mk info (expected_of (dict_or_empty probs) global_prob code info)
                 (resolve_prob (dict_or_empty probs) global_prob code info))
    <$> expiring !! code.
Proof.
  rewrite compute_forecast_unfold. cbn [Forecast.by_plans].
  apply (map_fold_weak_ind (fun acc m =>
    acc.2 !! code
    = (fun info =>
         ByPlan.mk info (expected_of (dict_or_empty probs) global_prob code info)
                   (resolve_prob (dict_or_empty probs) global_prob code info))
      <$> m !! code)).
  - now rewrite !lookup_empty.
  - intros i x m r Hi IH. unfold forecast_step. cbn [snd].
    destruct (decide (i = code)) as [->|Hne].
    + now rewrite !lookup_insert_eq.
    + now rewrite !lookup_insert_ne.
Qed.

(** [forecast] is the sum of the expected revenue of all plans. *)
Lemma compute_forecast_sum (expiring : gmap string Info.t)
    (received_dict : gmap string Q) (probs : option (gmap string Q))
    (global_prob : option Q) :
  (Forecast.forecast (compute_forecast expiring received_dict probs global_prob)
   == foldr (fun '(code, info) s =>
               s + expected_of (dict_or_empty probs) global_prob code info)
            0 (map_to_list expiring))%Q.
Proof.
  rewrite compute_forecast_unfold. cbn [Forecast.forecast].
  rewrite map_fold_foldr.
  induction (map_to_list expiring) as [|[code info] l IH]; [reflexivity|].
  cbn [foldr uncurry forecast_step fst]. now rewrite IH.
Qed.

Lemma py_or_nonneg (x : option Q) (rest : Q) :
  (forall v, x = Some v -> (0 <= v)%Q) -> (0 <= rest)%Q -> (0 <= py_or x rest)%Q.
Proof.
  intros Hx Hr. unfold py_or. destruct x as [v|]; [|exact Hr].
  destruct (Qeq_bool v 0); [exact Hr | now apply Hx].
Qed.

Lemma resolve_prob_nonneg (overrides : gmap string Q) (global_prob : option Q)
    (code : string) (info : Info.t) :
  valid_probs overrides -> valid_global global_prob ->
  (0 <= resolve_prob overrides global_prob code info)%Q.
Proof.
  intros Ho Hg. unfold resolve_prob.
  apply py_or_nonneg; [intros v Hv; now apply (Ho _ _ Hv)|].
  apply py_or_nonneg.
  { intros v Hv. unfold get_opt in Hv. destruct (Info.group_code info) as [g|];
      [|discriminate]. now apply (Ho _ _ Hv). }
  apply py_or_nonneg; [intros v Hv; now apply (Ho _ _ Hv)|].
  destruct global_prob as [g|]; [now apply (Hg g)|discriminate].
Qed.

Lemma expected_nonneg (overrides : gmap string Q) (global_prob : option Q)
    (code : string) (info : Info.t) :
  valid_probs overrides -> valid_global global_prob -> valid_info info ->
  (0 <= expected_of overrides global_prob code info)%Q.
Proof.
  intros Ho Hg [Hp Hc]. unfold expected_of.
  apply Qmult_le_0_compat; [apply Qmult_le_0_compat|].
  - exact Hp.
  - change 0%Q with (inject_Z 0). now rewrite <- Zle_Qle.
  - now apply resolve_prob_nonneg.
Qed.

Lemma compute_forecast_nonneg (expiring : gmap string Info.t)
    (received_dict : gmap string Q) (probs : gmap string Q)
    (global_prob : option Q) :
  valid_snapshot expiring -> valid_probs probs -> valid_global global_prob ->
  (0 <= Forecast.forecast
          (compute_forecast expiring received_dict (Some probs) global_prob))%Q.
Proof.
  intros He Hp Hg. rewrite compute_forecast_sum. cbn [dict_or_empty default from_option id].
  assert (Forall (fun ci => valid_info ci.2) (map_to_list expiring)) as Hall.
  { apply Forall_forall. intros [code info] Hin.
    apply elem_of_map_to_list in Hin. now apply (He code). }
  induction Hall as [|[code info] l Hx _ IH]; [apply Qle_refl|].
  cbn [foldr]. rewrite <- (Qplus_0_l 0) at 1.
  apply Qplus_le_compat; [exact IH|]. now apply expected_nonneg.
Qed.

(** ** Plan completion figures *)

Lemma probability_source_valid (settings : Settings) (learned : gmap string Q) :
  valid_probs (dict_or_empty (PLAN_PROB_OVERRIDES settings)) ->
  valid_probs learned -> valid_global (RENEWAL_PROBABILITY settings) ->
  valid_probs (probability_source settings learned).1
  /\ valid_global (probability_source settings learned).2.
Proof.
  intros Ho Hl Hg. unfold probability_source.
  destruct (RENEWAL_PROBABILITY settings) as [g|]; [now split|].
  case_bool_decide; now split.
Qed.

Lemma render_summary_data_unfold (settings : Settings)
    (expiring baseline_expiring : gmap string Info.t)
    (received learned : gmap string Q) (recognized_total : Q) :
  let src := probability_source settings learned in
  let data := compute_forecast expiring received (Some src.1) src.2 in
  let baseline :=
    compute_forecast baseline_expiring
      (<["net" := 0%Q]> (<["paid" := 0%Q]> (<["refunds" := 0%Q]> ∅)))
      (Some src.1) src.2 in
  let mode := default "cash" (COMPLETION_MODE settings) in
  render_summary_data settings expiring baseline_expiring received learned
    recognized_total
  = Summary.mk data (Forecast.forecast baseline)
      (completion_pct mode (Forecast.forecast baseline) (Forecast.forecast data)
         recognized_total (Forecast.received data))
      (gap_of mode (Forecast.forecast baseline) (Forecast.forecast data)
         recognized_total (Forecast.received data)).
Proof.
  cbn zeta. unfold render_summary_data.
  destruct (probability_source settings learned) as [probs_to_use global_p].
  reflexivity.
Qed.

Lemma gap_of_nonneg (mode : string) (plan_sum forecast_sum recognized_total
    fact_sum : Q) :
  (0 <= forecast_sum)%Q ->
  (0 <= gap_of mode plan_sum forecast_sum recognized_total fact_sum)%Q.
Proof.
  intros Hf. unfold gap_of.
  destruct (Qlt_bool 0 plan_sum); [|apply Qle_refl].
  repeat case_bool_decide; [exact Hf|apply py_max_lower..].
Qed.

Lemma py_max_0_cases (x : Q) :
  ((x <= 0)%Q -> py_max 0 x = 0%Q) /\ ((0 <= x)%Q -> (py_max 0 x == x)%Q).
Proof.
  destruct (py_max_spec 0 x) as [[Hle ->]|[Hlt ->]]; split; intros H;
    try reflexivity.
  - now apply Qle_antisym.
  - exfalso. apply (Qlt_irrefl 0). now apply Qlt_le_trans with x.
Qed.

Lemma gap_of_cases (mode : string) (plan_sum forecast_sum recognized_total
    fact_sum : Q) :
  let gap := gap_of mode plan_sum forecast_sum recognized_total fact_sum in
  ((plan_sum <= 0)%Q -> gap = 0%Q)
  /\ ((0 < plan_sum)%Q ->
      (mode = "plan_vs_forecast" -> gap = forecast_sum)
      /\ (mode = "accrual" ->
          gap = py_max 0 (plan_sum - recognized_total))
      /\ (mode <> "plan_vs_forecast" -> mode <> "accrual" ->
          gap = py_max 0 (plan_sum - fact_sum))).
Proof.
  cbn zeta. unfold gap_of, Qlt_bool.
  destruct (Qle_bool plan_sum 0) eqn:E; cbn [negb].
  - apply Qle_bool_iff in E. split; [reflexivity|]. intros Hpos. exfalso.
    apply (Qlt_irrefl 0). now apply Qlt_le_trans with plan_sum.
  - split.
    + intros Hle. apply Qle_bool_iff in Hle. congruence.
    + intros _. split; [|split].
      * intros ->. now rewrite bool_decide_eq_true_2.
      * intros ->. rewrite bool_decide_eq_false_2 by discriminate.
        now rewrite bool_decide_eq_true_2.
      * intros H1 H2. now rewrite !bool_decide_eq_false_2.
Qed.

(** C5. For valid inputs (non-negative prices, counts and received amounts,
    probabilities in [[0, 1]]) the report has
    [to_earn = max(0, forecast - received)], where [received] is the net
    amount passed in and [forecast] the sum of the expected revenue of the
    expiring plans; hence [to_earn >= 0], and [to_earn = 0] when at least the
    forecast was received.  [plan_gap] is 0 for a baseline that is not
    positive, the live forecast in [plan_vs_forecast] mode,
    [max(0, baseline - recognized)] in [accrual] mode and
    [max(0, baseline - received)] otherwise, so [plan_gap >= 0] in every
    completion mode and for every plan baseline, zero included. *)
Theorem forecast_non_negativity (settings : Settings)
    (expiring baseline_expiring : gmap string Info.t)
    (received learned : gmap string Q) (recognized_total : Q) :
  valid_inputs settings expiring baseline_expiring received learned ->
  let s := render_summary_data settings expiring baseline_expiring received
             learned recognized_total in
  let f := Summary.data s in
  let src := probability_source settings learned in
  let net := default 0%Q (received !! "net") in
  let mode := default "cash" (COMPLETION_MODE settings) in
  (Forecast.forecast f
   == foldr (fun '(code, info) acc => acc + expected_of src.1 src.2 code info)
            0 (map_to_list expiring))%Q
  /\ Forecast.received f = net
  /\ (Forecast.to_earn f == Qmax 0 (Forecast.forecast f - net))%Q
  /\ (0 <= Forecast.to_earn f)%Q
  /\ ((Forecast.forecast f <= net)%Q -> Forecast.to_earn f = 0%Q)
  /\ ((net <= Forecast.forecast f)%Q ->
      (Forecast.to_earn f == Forecast.forecast f - net)%Q)
  /\ (Summary.plan_baseline s
      == foldr (fun '(code, info) acc =>
                  acc + expected_of src.1 src.2 code info)
               0 (map_to_list baseline_expiring))%Q
  /\ (0 <= Summary.plan_baseline s)%Q
  /\ ((Summary.plan_baseline s <= 0)%Q -> Summary.plan_gap s = 0%Q)
  /\ ((0 < Summary.plan_baseline s)%Q ->
      (mode = "plan_vs_forecast" -> Summary.plan_gap s = Forecast.forecast f)
      /\ (mode = "accrual" ->
          (Summary.plan_gap s
           == Qmax 0 (Summary.plan_baseline s - recognized_total))%Q)
      /\ (mode <> "plan_vs_forecast" -> mode <> "accrual" ->
          (Summary.plan_gap s == Qmax 0 (Summary.plan_baseline s - net))%Q))
  /\ (0 <= Summary.plan_gap s)%Q.
Proof.
  intros [He Hb Hr Ho Hl Hg]. cbn zeta.
  rewrite render_summary_data_unfold.
  cbn [Summary.data Summary.plan_gap Summary.plan_baseline].
  destruct (probability_source_valid settings learned Ho Hl Hg) as [Hp Hgl].
  set (src := probability_source settings learned) in *.
  set (net := default 0%Q (received !! "net")).
  assert (Forecast.received (compute_forecast expiring received (Some src.1)
                               src.2) = net) as Hrec
    by (now rewrite compute_forecast_unfold).
  assert (Forecast.to_earn (compute_forecast expiring received (Some src.1)
                              src.2)
          = py_max 0 (Forecast.forecast
                        (compute_forecast expiring received (Some src.1) src.2)
                      - net)) as Hearn
    by (now rewrite compute_forecast_to_earn, Hrec).
  rewrite Hrec, Hearn.
  set (forecast := Forecast.forecast (compute_forecast expiring _ _ _)) in *.
  set (plan_sum := Forecast.forecast (compute_forecast baseline_expiring _ _ _)).
  destruct (gap_of_cases (default "cash" (COMPLETION_MODE settings)) plan_sum
              forecast recognized_total net) as [Hzero Hpos].
  split; [apply (compute_forecast_sum expiring received (Some src.1) src.2)|].
  split; [reflexivity|]. split; [apply py_max_0_eq|].
  split; [apply py_max_lower|]. split.
  { intros Hle. apply (proj1 (py_max_0_cases (forecast - net))).
    unfold Qminus. rewrite <- (Qplus_opp_r net).
    apply Qplus_le_compat; [exact Hle | apply Qle_refl]. }
  split.
  { intros Hle. apply (proj2 (py_max_0_cases (forecast - net))).
    unfold Qminus. rewrite <- (Qplus_opp_r net).
    apply Qplus_le_compat; [exact Hle | apply Qle_refl]. }
  split; [apply (compute_forecast_sum baseline_expiring _ (Some src.1) src.2)|].
  split; [now apply compute_forecast_nonneg|].
  split; [exact Hzero|]. split.
  { intros Hlt. destruct (Hpos Hlt) as (Hpvf & Hacc & Hcash).
    split; [exact Hpvf|]. split.
    - intros Hm. rewrite (Hacc Hm). apply py_max_0_eq.
    - intros H1 H2. rewrite (Hcash H1 H2). apply py_max_0_eq. }
  apply gap_of_nonneg. now apply compute_forecast_nonneg.
Qed.

Lemma valid_snapshot_singleton (code : string) (info : Info.t) :
  valid_info info -> valid_snapshot {[code := info]}.
Proof.
  intros Hi c i Hc. apply lookup_singleton_Some in Hc as [_ <-]. exact Hi.
Qed.

Lemma valid_probs_empty : valid_probs ∅.
Proof. intros k p Hk. now rewrite lookup_empty in Hk. Qed.

Lemma valid_received_singleton (k : string) (v : Q) :
  (0 <= v)%Q -> valid_received {[k := v]}.
Proof.
  intros Hv c i Hc. apply lookup_singleton_Some in Hc as [_ <-]. exact Hv.
Qed.

Lemma forecast_non_negativity_witness :
  let settings := {| PLAN_PROB_OVERRIDES := None;
                     RENEWAL_PROBABILITY := Some (1 # 2);
                     COMPLETION_MODE := Some "accrual" |} in
  let expiring := {["A" := Info.mk 2 100 (Some 1) None "1m"]} in
  let s := render_summary_data settings expiring expiring {["net" := 150%Q]}
             ∅ 0 in
  (Forecast.forecast (Summary.data s) == 100)%Q
  /\ Forecast.received (Summary.data s) = 150%Q
  /\ Forecast.to_earn (Summary.data s) = 0%Q
  /\ (Summary.plan_gap s == 100)%Q.
Proof.
  intros settings expiring.
  assert (valid_inputs settings expiring expiring {["net" := 150%Q]} ∅) as Hv.
  { split.
    - apply valid_snapshot_singleton. split; discriminate.
    - apply valid_snapshot_singleton. split; discriminate.
    - apply valid_received_singleton. discriminate.
    - apply valid_probs_empty.
    - apply valid_probs_empty.
    - intros p [= <-]. split; discriminate. }
  destruct (forecast_non_negativity settings expiring expiring
              {["net" := 150%Q]} ∅ 0 Hv)
    as (Hf & Hr & _ & _ & Hzero & _ & _ & _ & _ & Hgap & _).
  split; [rewrite Hf; reflexivity|]. split; [exact Hr|].
  split; [apply Hzero; rewrite Hf; vm_compute; discriminate|].
  destruct (Hgap ltac:(vm_compute; reflexivity)) as (_ & Hacc & _).
  rewrite (Hacc eq_refl). reflexivity.
Defined.

Example received_above_forecast :
  let settings := {| PLAN_PROB_OVERRIDES := None;
                     RENEWAL_PROBABILITY := Some (1 # 2);
                     COMPLETION_MODE := Some "accrual" |} in
  let expiring := {["A" := Info.mk 2 100 (Some 1) None "1m"]} in
  let s := render_summary_data settings expiring expiring {["net" := 150%Q]}
             ∅ 0 in
  (Forecast.forecast (Summary.data s) == 100)%Q
  /\ (Forecast.received (Summary.data s) == 150)%Q
  /\ (Forecast.to_earn (Summary.data s) == 0)%Q
  /\ (Summary.plan_gap s == 100)%Q.
Proof. vm_compute. repeat split. Qed.

Lemma clamp_cases (x : Q) :
  let c := py_max 0 (py_min 100 x) in
  (c == Qmax 0 (Qmin 100 x))%Q
  /\ ((x <= 0)%Q -> c = 0%Q)
  /\ ((0 <= x)%Q -> (x <= 100)%Q -> (c == x)%Q)
  /\ ((100 <= x)%Q -> (c == 100)%Q).
Proof.
  cbn zeta. assert (0 <= 100)%Q as H100 by discriminate.
  destruct (py_min_spec 100 x) as [[Hge ->]|[Hlt ->]].
  - change (py_max 0 100) with 100%Q.
    split; [|split; [|split]].
    + rewrite Q.max_r by (apply Q.min_glb; [exact H100|];
        now apply Qle_trans with 100%Q).
      symmetry. now apply Q.min_l.
    + intros Hle. exfalso. apply (Qlt_irrefl 0).
      apply Qlt_le_trans with 100%Q; [reflexivity|].
      now apply Qle_trans with x.
    + intros _ Hle. now apply Qle_antisym.
    + intros _. reflexivity.
  - destruct (py_max_spec 0 x) as [[Hle ->]|[Hpos ->]].
    + split; [|split; [|split]].
      * symmetry. apply Q.max_l.
        apply Qle_trans with x; [apply Q.le_min_r | exact Hle].
      * intros _. reflexivity.
      * intros Hge _. now apply Qle_antisym.
      * intros Hge. exfalso. apply (Qlt_irrefl x).
        now apply Qlt_le_trans with 100%Q.
    + split; [|split; [|split]].
      * rewrite Q.max_r by (apply Q.min_glb; [exact H100|];
          now apply Qlt_le_weak).
        symmetry. apply Q.min_r. now apply Qlt_le_weak.
      * intros Hle. exfalso. apply (Qlt_irrefl 0).
        now apply Qlt_le_trans with x.
      * intros _ _. reflexivity.
      * intros Hge. exfalso. apply (Qlt_irrefl x).
        now apply Qlt_le_trans with 100%Q.
Qed.

Lemma completion_pct_plan_vs_forecast (plan_sum forecast_sum recognized_total
    fact_sum : Q) :
  (0 < plan_sum)%Q ->
  let x := ((plan_sum - forecast_sum) / plan_sum * 100)%Q in
  exists pct,
    completion_pct "plan_vs_forecast" plan_sum forecast_sum recognized_total
      fact_sum = Some pct
    /\ (pct == Qmax 0 (Qmin 100 x))%Q
    /\ (0 <= pct)%Q /\ (pct <= 100)%Q
    /\ ((plan_sum < forecast_sum)%Q -> pct = 0%Q)
    /\ ((x <= 0)%Q -> pct = 0%Q)
    /\ ((0 <= x)%Q -> (x <= 100)%Q -> (pct == x)%Q)
    /\ ((100 <= x)%Q -> (pct == 100)%Q).
Proof.
  intros Hpos x. unfold completion_pct, Qlt_bool.
  destruct (Qle_bool plan_sum 0) eqn:E.
  { apply Qle_bool_iff in E. exfalso. apply (Qlt_irrefl 0).
    now apply Qlt_le_trans with plan_sum. }
  cbn [negb]. rewrite bool_decide_eq_true_2 by reflexivity.
  fold x.
  destruct (clamp_cases x) as (Heq & Hlow & Hmid & Hhigh).
  exists (py_max 0 (py_min 100 x)). split; [reflexivity|].
  assert (py_min 100 x <= 100)%Q as Hmin.
  { destruct (py_min_spec 100 x) as [[_ ->]|[H ->]];
      [apply Qle_refl | now apply Qlt_le_weak]. }
  split; [exact Heq|]. split; [apply py_max_lower|]. split.
  { destruct (py_max_spec 0 (py_min 100 x)) as [[_ ->]|[_ ->]];
      [discriminate | exact Hmin]. }
  split; [|split; [exact Hlow | split; [exact Hmid | exact Hhigh]]].
  intros Hlt. apply Hlow. apply Qlt_le_weak.
  unfold x. rewrite <- (Qmult_0_l 100).
  apply Qmult_lt_compat_r; [reflexivity|].
  apply Qlt_shift_div_r; [exact Hpos|]. rewrite Qmult_0_l.
  unfold Qminus. rewrite <- (Qplus_opp_r forecast_sum).
  apply Qplus_lt_le_compat; [exact Hlt | apply Qle_refl].
Qed.

(** C10. In [plan_vs_forecast] mode with a positive plan baseline the
    reported completion percentage is
    [(baseline - forecast) / baseline * 100] clamped to [[0, 100]], where
    [baseline] and [forecast] are the expected revenue of the previous-cycle
    and of the live expiring plans: it lies in [[0, 100]], is the unclamped
    figure whenever that lies in the interval, is 100 above it and 0 below
    it, in particular 0 rather than a negative percentage when the live
    forecast exceeds the baseline; and [plan_gap] is the live forecast. *)
Theorem plan_vs_forecast_clamped (settings : Settings)
    (expiring baseline_expiring : gmap string Info.t)
    (received learned : gmap string Q) (recognized_total : Q) :
  let s := render_summary_data settings expiring baseline_expiring received
             learned recognized_total in
  COMPLETION_MODE settings = Some "plan_vs_forecast" ->
  (0 < Summary.plan_baseline s)%Q ->
  let src := probability_source settings learned in
  let forecast := Forecast.forecast (Summary.data s) in
  let x := ((Summary.plan_baseline s - forecast) / Summary.plan_baseline s
            * 100)%Q in
  exists pct,
    Summary.plan_completion_pct s = Some pct
    /\ (0 <= pct)%Q /\ (pct <= 100)%Q
    /\ ((Summary.plan_baseline s < Forecast.forecast (Summary.data s))%Q ->
        pct = 0%Q)
    /\ Summary.plan_gap s = Forecast.forecast (Summary.data s)
    /\ (pct == Qmax 0 (Qmin 100 x))%Q
    /\ ((x <= 0)%Q -> pct = 0%Q)
    /\ ((0 <= x)%Q -> (x <= 100)%Q -> (pct == x)%Q)
    /\ ((100 <= x)%Q -> (pct == 100)%Q)
    /\ (forecast
        == foldr (fun '(code, info) acc =>
                    acc + expected_of src.1 src.2 code info)
                 0 (map_to_list expiring))%Q
    /\ (Summary.plan_baseline s
        == foldr (fun '(code, info) acc =>
                    acc + expected_of src.1 src.2 code info)
                 0 (map_to_list baseline_expiring))%Q.
Proof.
  cbn zeta. rewrite render_summary_data_unfold.
  cbn [Summary.plan_baseline Summary.plan_completion_pct Summary.plan_gap
       Summary.data].
  intros -> Hpos. cbn [default from_option id].
  destruct (completion_pct_plan_vs_forecast _
              (Forecast.forecast (compute_forecast expiring received
                 (Some (probability_source settings learned).1)
                 (probability_source settings learned).2))
              recognized_total
              (Forecast.received (compute_forecast expiring received
                 (Some (probability_source settings learned).1)
                 (probability_source settings learned).2))
              Hpos)
    as (pct & Hpct & Heq & H0 & H100 & Hzero & Hlow & Hmid & Hhigh).
  exists pct. split; [exact Hpct|]. split; [exact H0|]. split; [exact H100|].
  split; [exact Hzero|]. split.
  { unfold gap_of, Qlt_bool.
    destruct (Qle_bool _ 0) eqn:E.
    { apply Qle_bool_iff in E. exfalso. eapply Qlt_irrefl.
      eapply Qlt_le_trans; [exact Hpos | exact E]. }
    cbn [negb]. now rewrite bool_decide_eq_true_2. }
  split; [exact Heq|]. split; [exact Hlow|]. split; [exact Hmid|].
  split; [exact Hhigh|].
  split; apply compute_forecast_sum.
Qed.

Lemma plan_vs_forecast_clamped_witness :
  let settings := {| PLAN_PROB_OVERRIDES := None;
                     RENEWAL_PROBABILITY := Some 1%Q;
                     COMPLETION_MODE := Some "plan_vs_forecast" |} in
  let expiring := {["A" := Info.mk 1 100 (Some 1) None "1m"]} in
  let baseline := {["A" := Info.mk 4 100 (Some 1) None "1m"]} in
  let s := render_summary_data settings expiring baseline ∅ ∅ 0 in
  (Summary.plan_baseline s == 400)%Q
  /\ (Forecast.forecast (Summary.data s) == 100)%Q
  /\ (exists pct, Summary.plan_completion_pct s = Some pct /\ (pct == 75)%Q)
  /\ Summary.plan_gap s = Forecast.forecast (Summary.data s).
Proof.
  intros settings expiring baseline.
  destruct (plan_vs_forecast_clamped settings expiring baseline ∅ ∅ 0
              eq_refl ltac:(vm_compute; reflexivity))
    as (pct & Hpct & _ & _ & _ & Hgap & _ & _ & Hmid & _ & Hf & Hb).
  split; [rewrite Hb; reflexivity|]. split; [rewrite Hf; reflexivity|].
  split; [|exact Hgap].
  exists pct. split; [exact Hpct|].
  rewrite (Hmid ltac:(vm_compute; discriminate) ltac:(vm_compute; discriminate)).
  vm_compute. reflexivity.
Defined.

(** ** Probability resolution *)

(** An override that is present and not zero wins over everything after
    it in the chain. *)
Lemma resolve_prob_precedence (overrides : gmap string Q)
    (global_prob : option Q) (code : string) (info : Info.t) :
  let nonzero (x : option Q) :=
    match x with Some v => negb (Qeq_bool v 0) | None => false end in
  let by_name := overrides !! code in
  let by_group := get_opt overrides (Info.group_code info) in
  let by_bucket := overrides !! Info.bucket info in
  resolve_prob overrides global_prob code info =
    if nonzero by_name then default 0%Q by_name
    else if nonzero by_group then default 0%Q by_group
    else if nonzero by_bucket then default 0%Q by_bucket
    else match global_prob with Some g => g | None => 1%Q end.
Proof.
  cbn zeta. unfold resolve_prob, py_or.
  destruct (overrides !! code) as [v1|]; cbn;
    [destruct (Qeq_bool v1 0); cbn; [|reflexivity]|];
  (destruct (get_opt overrides (Info.group_code info)) as [v2|]; cbn;
    [destruct (Qeq_bool v2 0); cbn; [|reflexivity]|]);
  (destruct (overrides !! Info.bucket info) as [v3|]; cbn;
    [destruct (Qeq_bool v3 0); cbn; reflexivity|reflexivity]).
Qed.

(** C6, the code at the failing input: plan ["A"] (price 100, one
    subscription) with the override [{"A": 0.0}] and no global probability.
    The override is present, yet the plan is forecast with probability 1 and
    expected revenue 100 instead of 0. *)
Theorem zero_override_falls_through :
  let info := Info.mk 1 100 (Some 1) None "1m" in
  let f := compute_forecast {["A" := info]} ∅ (Some {["A" := 0%Q]}) None in
  ({["A" := 0%Q]} : gmap string Q) !! "A" = Some 0%Q
  /\ resolve_prob {["A" := 0%Q]} None "A" info = 1%Q
  /\ (ByPlan.prob <$> Forecast.by_plans f !! "A") = Some 1%Q
  /\ (exists e, (ByPlan.expected <$> Forecast.by_plans f !! "A") = Some e
                /\ (e == 100)%Q)
  /\ (Forecast.forecast f == 100)%Q.
Proof.
  cbn zeta. split; [reflexivity|]. split; [reflexivity|].
  split; [reflexivity|]. split; [|reflexivity].
  eexists. split; reflexivity.
Qed.

(** The neighbouring reads of a probability do honour a zero: the global
    probability in the same chain, and the per-bucket override in the churn
    weighting. *)
Example zero_probability_elsewhere :
  let info := Info.mk 1 100 (Some 1) None "1m" in
  resolve_prob ∅ (Some 0%Q) "A" info = 0%Q
  /\ (churn_step {["1m" := 0%Q]} 1 "1m" 2 0 == 2)%Q.
Proof. split; reflexivity. Qed.

(** ** Month-start baseline *)

Lemma merge_step_lookup (name k : string) (info : Info.t)
    (merged : gmap string Info.t) :
  merge_step name info merged !! k
  = if decide (name = k) then Some (merge_entry (merged !! name) info)
    else merged !! k.
Proof.
  unfold merge_step, merge_entry.
  destruct (merged !! name) as [e|] eqn:E; rewrite lookup_insert;
    destruct (decide (name = k)); reflexivity.
Qed.

Lemma merge_fold_lookup (merged src : gmap string Info.t) (k : string) :
  map_fold merge_step merged src !! k
  = match src !! k with
    | Some info => Some (merge_entry (merged !! k) info)
    | None => merged !! k
    end.
Proof.
  revert k.
  apply (map_fold_weak_ind (fun r m => forall k,
    r !! k = match m !! k with
             | Some info => Some (merge_entry (merged !! k) info)
             | None => merged !! k
             end)).
  - intros k. now rewrite lookup_empty.
  - intros i x m r Hi IH k. rewrite merge_step_lookup, lookup_insert.
    destruct (decide (i = k)) as [->|Hne]; [|apply IH].
    now rewrite IH, Hi.
Qed.

Lemma merge_sources_lookup (current prev_data : gmap string Info.t)
    (k : string) :
  merge_sources current prev_data !! k
  = match current !! k, prev_data !! k with
    | Some c, Some p => Some (merge_entry (Some c) p)
    | Some c, None => Some c
    | None, Some p => Some p
    | None, None => None
    end.
Proof.
  unfold merge_sources. rewrite !merge_fold_lookup, lookup_empty.
  destruct (current !! k), (prev_data !! k); reflexivity.
Qed.

(** C9. The baseline is the value merge of the current-month expiring
    snapshot and the previous-cycle-in-window snapshot.  A plan name present
    in both gets the sum of the two counts, and as price the price of the
    previous-cycle snapshot unless that one is zero (a null price is stored
    as zero), in which case the current snapshot's price stays; a name
    present in one source keeps that source's entry.  In the scenario of a
    plan with 5 currently expiring subscriptions and 3 renewed ones whose
    previous cycle ended in the month, the baseline count is 8. *)
Theorem baseline_is_value_merge (st : Store) (start_ms end_ms : Z)
    (flags : Flags) (name : string) :
  let current := get_expiring_by_plan st start_ms end_ms flags in
  let prev_data := get_prev_data st start_ms end_ms flags in
  let merged := get_baseline_expiring_by_plan st start_ms end_ms flags in
  match current !! name, prev_data !! name with
  | Some c, Some p =>
      exists m, merged !! name = Some m
        /\ Info.count m = Info.count c + Info.count p
        /\ Info.price m = (if Qeq_bool (Info.price p) 0 then Info.price c
                           else Info.price p)
        /\ Info.period_months m = Info.period_months c
        /\ Info.group_code m = Info.group_code c
        /\ Info.bucket m = Info.bucket c
  | Some c, None => merged !! name = Some c
  | None, Some p => merged !! name = Some p
  | None, None => merged !! name = None
  end
  /\ (Info.count <$> get_expiring_by_plan scenario_store 0 (31 * ms_per_day)
                       no_policy !! "A") = Some 5
  /\ (Info.count <$> get_prev_data scenario_store 0 (31 * ms_per_day)
                       no_policy !! "A") = Some 3
  /\ (Info.count <$> get_baseline_expiring_by_plan scenario_store 0
                       (31 * ms_per_day) no_policy !! "A") = Some 8.
Proof.
  cbn zeta. split; [|repeat split].
  unfold get_baseline_expiring_by_plan. rewrite merge_sources_lookup.
  destruct (get_expiring_by_plan st start_ms end_ms flags !! name) as [c|],
    (get_prev_data st start_ms end_ms flags !! name) as [p|]; try reflexivity.
  eexists. split; [reflexivity|]. repeat split.
Qed.

(** ** Retention and churn analyzer: the candidate cohort *)

Section Fallback.
Context (ids : gset Z) (ptp : gmap Z (Z * option string)) (dt_start dt_end : Z).

(** One ranked payment yields at most one candidate, for its own account,
    and only when that account is not in [ids]. *)
Lemma fallback_of_tg (row : Z * Payment.t) :
  fallback_of ids ptp dt_start dt_end row = []
  \/ exists c, fallback_of ids ptp dt_start dt_end row = [c]
       /\ Cand.tg_id c = row.1 /\ Cand.expiry_ms c = None /\ row.1 ∉ ids.
Proof.
  destruct row as [tg pay]. unfold fallback_of.
  case_bool_decide as Hin; [now left|].
  destruct (ptp !! price_key_of (Payment.amount pay)) as [[dd gcode]|];
    [|now left].
  destruct (in_window _ dt_start dt_end); [|now left].
  right. eexists. split; [reflexivity|]. now repeat split.
Qed.

Lemma fallback_tgs_sublist (rows : list (Z * Payment.t)) :
  (Cand.tg_id <$> (rows ≫= fallback_of ids ptp dt_start dt_end))
    `sublist_of` rows.*1.
Proof.
  induction rows as [|row rows IH]; [constructor|].
  rewrite bind_cons, fmap_app, fmap_cons.
  destruct (fallback_of_tg row) as [->|(c & -> & Htg & _)].
  - cbn. now apply sublist_cons.
  - cbn. rewrite Htg. now apply sublist_skip.
Qed.

End Fallback.

Lemma fallback_rows_NoDup (st : Store) (dt_start dt_end : Z)
    (cand_rows : list Cand.t) :
  NoDup (Cand.tg_id <$> fallback_rows st dt_start dt_end cand_rows).
Proof.
  unfold fallback_rows, last_pays.
  eapply sublist_NoDup; [|apply fallback_tgs_sublist].
  apply NoDup_fst_map_to_list.
Qed.

Lemma fallback_rows_fresh (st : Store) (dt_start dt_end : Z)
    (cand_rows : list Cand.t) (c : Cand.t) :
  c ∈ fallback_rows st dt_start dt_end cand_rows ->
  Cand.tg_id c ∉ Cand.tg_id <$> cand_rows.
Proof.
  unfold fallback_rows. intros Hc.
  apply list_elem_of_bind in Hc as (row & Hc & _).
  destruct (fallback_of_tg (tg_ids_of cand_rows) (price_to_plan_of st)
              dt_start dt_end row) as [E|(c' & E & Htg & _ & Hfresh)];
    rewrite E in Hc.
  - now apply elem_of_nil in Hc.
  - apply list_elem_of_singleton in Hc as ->. rewrite Htg.
    unfold tg_ids_of in Hfresh. now rewrite elem_of_list_to_set in Hfresh.
Qed.

(** C2 as stated fails: account 7 holds two subscriptions whose previous
    cycle ended in the window, and it appears twice in the merged cohort. *)
Lemma merged_candidates_repeat_account :
  Cand.tg_id <$> merged_candidates retention_store 0 (31 * ms_per_day) no_policy
    = [7; 7; 9]
  /\ ~ NoDup (Cand.tg_id <$>
               merged_candidates retention_store 0 (31 * ms_per_day) no_policy).
Proof.
  split; [reflexivity|].
  change (Cand.tg_id <$> merged_candidates retention_store 0 (31 * ms_per_day)
            no_policy) with [7; 7; 9].
  intros H. apply NoDup_cons in H as [H _]. apply H. constructor.
Qed.

(** C2, amended.  A candidate rebuilt from an account's most recent
    successful payment is admitted only when no real-subscription candidate
    of that account is present, and at most one is admitted per account.
    So an account appears twice in the merged cohort only when it has two
    real-subscription candidates: if the real-subscription candidates have
    pairwise distinct accounts, so has the merged cohort. *)
Theorem fallback_dedup_by_account (st : Store) (dt_start dt_end : Z)
    (flags : Flags) :
  let real := q_candidates st dt_start dt_end flags in
  let fallback := fallback_rows st dt_start dt_end real in
  merged_candidates st dt_start dt_end flags = (real ++ fallback)%list
  /\ (forall c, c ∈ fallback -> Cand.tg_id c ∉ Cand.tg_id <$> real)
  /\ NoDup (Cand.tg_id <$> fallback)
  /\ (NoDup (Cand.tg_id <$> real) ->
      NoDup (Cand.tg_id <$> merged_candidates st dt_start dt_end flags)).
Proof.
  cbn zeta. split; [reflexivity|]. split; [|split].
  - intros c. apply fallback_rows_fresh.
  - apply fallback_rows_NoDup.
  - intros Hreal. unfold merged_candidates. rewrite fmap_app.
    apply NoDup_app. split; [exact Hreal|]. split; [|apply fallback_rows_NoDup].
    intros tg Hin Hfb. apply list_elem_of_fmap in Hfb as (c & -> & Hc).
    now apply (fallback_rows_fresh _ _ _ _ _ Hc).
Qed.

Lemma fallback_dedup_by_account_witness :
  let real := q_candidates dedup_store 0 (31 * ms_per_day) no_policy in
  let fallback := fallback_rows dedup_store 0 (31 * ms_per_day) real in
  Cand.tg_id <$> real = [7]
  /\ fallback = [Cand.mk None None (Some 30) (Some 100) 9]
  /\ Cand.tg_id <$> merged_candidates dedup_store 0 (31 * ms_per_day)
                       no_policy = [7; 9]
  /\ (forall c, c ∈ fallback -> Cand.tg_id c ∉ Cand.tg_id <$> real)
  /\ NoDup (Cand.tg_id <$>
              merged_candidates dedup_store 0 (31 * ms_per_day) no_policy).
Proof.
  cbn zeta.
  destruct (fallback_dedup_by_account dedup_store 0 (31 * ms_per_day)
              no_policy) as (Hmerge & Hfresh & _ & Hnodup).
  split; [reflexivity|]. split; [reflexivity|].
  split; [rewrite Hmerge; reflexivity|]. split; [exact Hfresh|].
  apply Hnodup.
  change (Cand.tg_id <$> q_candidates dedup_store 0 (31 * ms_per_day)
            no_policy) with [7].
  apply NoDup_singleton.
Defined.

(** The old payment of account 7 is not turned into a candidate, the one of
    account 9 is. *)
Example fallback_only_for_absent_accounts :
  Cand.tg_id <$> q_candidates retention_store 0 (31 * ms_per_day) no_policy
    = [7; 7]
  /\ fallback_rows retention_store 0 (31 * ms_per_day)
       (q_candidates retention_store 0 (31 * ms_per_day) no_policy)
     = [Cand.mk None None (Some 30) (Some 100) 9].
Proof. split; reflexivity. Qed.

(** ** Retention and churn analyzer: the report *)

Lemma classify_step_total (end_ms : Z) (paid : gset Z) (t : Tally)
    (c : Cand.t) :
  let t' := classify_step end_ms paid t c in
  renewed t' + not_renewed t' = renewed t + not_renewed t + 1
  /\ renewed t <= renewed t' /\ not_renewed t <= not_renewed t'.
Proof.
  cbn zeta. unfold classify_step, count_renewed, count_not_renewed.
  destruct (Cand.expiry_ms c) as [e|].
  - destruct (end_ms <=? e); cbn; lia.
  - case_bool_decide; cbn; lia.
Qed.

Lemma classify_fold_total (end_ms : Z) (paid : gset Z)
    (cand_rows : list Cand.t) (t : Tally) :
  let t' := foldl (classify_step end_ms paid) t cand_rows in
  renewed t' + not_renewed t'
  = renewed t + not_renewed t + Z.of_nat (length cand_rows)
  /\ renewed t <= renewed t' /\ not_renewed t <= not_renewed t'.
Proof.
  cbn zeta. revert t. induction cand_rows as [|c l IH]; intros t.
  - cbn. lia.
  - cbn [foldl length].
    destruct (IH (classify_step end_ms paid t c)) as (H1 & H2 & H3).
    destruct (classify_step_total end_ms paid t c) as (G1 & G2 & G3).
    lia.
Qed.

Lemma classify_total (end_ms : Z) (paid : gset Z) (cand_rows : list Cand.t) :
  let t := classify end_ms paid cand_rows in
  renewed t + not_renewed t = Z.of_nat (length cand_rows)
  /\ 0 <= renewed t /\ 0 <= not_renewed t.
Proof.
  cbn zeta. unfold classify.
  destruct (classify_fold_total end_ms paid cand_rows
              {| renewed := 0; not_renewed := 0; bucket_counts := ∅ |})
    as (H1 & H2 & H3).
  cbn in *. lia.
Qed.

Lemma rates_sum_to_one (a b t : Z) :
  a + b = t -> t <> 0 ->
  (inject_Z a / inject_Z t + inject_Z b / inject_Z t == 1)%Q.
Proof.
  intros Hsum Ht. unfold Qdiv. rewrite <- Qmult_plus_distr_l.
  rewrite <- inject_Z_plus, Hsum. apply Qmult_inv_r.
  intros H. apply Ht. exact (proj1 (inject_Z_injective t 0) H).
Qed.

Lemma retention_of_nonempty (cand_rows : list Cand.t) (end_ms : Z)
    (paid : gset Z) (probs : option (gmap string Q)) (global_prob : option Q) :
  cand_rows <> [] ->
  let t := classify end_ms paid cand_rows in
  let total := Z.of_nat (length cand_rows) in
  let r := retention_of cand_rows end_ms paid probs global_prob in
  Retention.retention_rate r = Some (inject_Z (renewed t) / inject_Z total)%Q
  /\ Retention.churn_rate r = Some (inject_Z (not_renewed t) / inject_Z total)%Q
  /\ Retention.renewed_count r = renewed t
  /\ Retention.not_renewed_yet r = not_renewed t.
Proof.
  intros Hne. cbn zeta. unfold retention_of.
  destruct (Z.eqb_spec (Z.of_nat (length cand_rows)) 0) as [E|_].
  - destruct cand_rows; [contradiction | discriminate E].
  - repeat split.
Qed.

(** C3. For a non-empty candidate cohort the report satisfies
    [renewed_count + not_renewed_yet = total_candidates],
    [retention_rate = renewed_count / total_candidates],
    [churn_rate = not_renewed_yet / total_candidates] and
    [retention_rate + churn_rate = 1] (in exact arithmetic). *)
Theorem retention_conservation (st : Store) (dt_start dt_end : Z)
    (flags : Flags) (probs : option (gmap string Q)) (global_prob : option Q) :
  let cohort := merged_candidates st dt_start dt_end flags in
  let total_candidates := Z.of_nat (length cohort) in
  let r := _calc_retention_churn st dt_start dt_end flags probs global_prob in
  cohort <> [] ->
  Retention.renewed_count r + Retention.not_renewed_yet r = total_candidates
  /\ exists retention_rate churn_rate,
       Retention.retention_rate r = Some retention_rate
       /\ Retention.churn_rate r = Some churn_rate
       /\ (retention_rate
           == inject_Z (Retention.renewed_count r) / inject_Z total_candidates)%Q
       /\ (churn_rate
           == inject_Z (Retention.not_renewed_yet r) / inject_Z total_candidates)%Q
       /\ (retention_rate + churn_rate == 1)%Q.
Proof.
  cbn zeta. intros Hne. unfold _calc_retention_churn.
  destruct (retention_of_nonempty _ dt_end (paid_in_month st dt_start dt_end)
              probs global_prob Hne) as (Hr & Hc & Hn & Hm).
  destruct (classify_total dt_end (paid_in_month st dt_start dt_end)
              (merged_candidates st dt_start dt_end flags)) as (Hsum & _ & _).
  rewrite Hn, Hm. split; [exact Hsum|].
  eexists _, _. split; [exact Hr|]. split; [exact Hc|].
  split; [reflexivity|]. split; [reflexivity|].
  apply rates_sum_to_one; [exact Hsum|].
  destruct (merged_candidates st dt_start dt_end flags); [contradiction|].
  discriminate.
Qed.

Lemma retention_conservation_witness :
  let r := _calc_retention_churn retention_store 0 (31 * ms_per_day) no_policy
             None None in
  Retention.renewed_count r + Retention.not_renewed_yet r = 3
  /\ exists retention_rate churn_rate,
       Retention.retention_rate r = Some retention_rate
       /\ Retention.churn_rate r = Some churn_rate
       /\ (retention_rate + churn_rate == 1)%Q.
Proof.
  destruct (retention_conservation retention_store 0 (31 * ms_per_day)
              no_policy None None ltac:(discriminate))
    as (Hsum & rr & cr & Hr & Hc & _ & _ & Hone).
  split; [exact Hsum|]. exists rr, cr. now repeat split.
Defined.

Example retention_store_report :
  let r := _calc_retention_churn retention_store 0 (31 * ms_per_day) no_policy
             None None in
  Retention.renewed_count r = 1 /\ Retention.not_renewed_yet r = 2
  /\ Retention.retention_rate r = Some (1 # 3)%Q
  /\ Retention.churn_rate r = Some (2 # 3)%Q.
Proof. vm_compute. repeat split. Qed.

(** C4. When the candidate cohort is empty the report gives
    [retention_rate] and [churn_rate] as [None] (the unknown marker, not a
    number), both counts 0 and [predicted_churn] exactly 0. *)
Theorem retention_empty_cohort (st : Store) (dt_start dt_end : Z)
    (flags : Flags) (probs : option (gmap string Q)) (global_prob : option Q) :
  length (merged_candidates st dt_start dt_end flags) = 0%nat ->
  let r := _calc_retention_churn st dt_start dt_end flags probs global_prob in
  Retention.retention_rate r = None
  /\ Retention.churn_rate r = None
  /\ Retention.renewed_count r = 0
  /\ Retention.not_renewed_yet r = 0
  /\ Retention.predicted_churn r = 0%Q.
Proof.
  intros Hlen. cbn zeta. unfold _calc_retention_churn, retention_of.
  rewrite Hlen. cbn. repeat split.
Qed.

Lemma retention_empty_cohort_witness :
  let r := _calc_retention_churn empty_store 0 (31 * ms_per_day) no_policy
             None None in
  Retention.retention_rate r = None /\ Retention.churn_rate r = None
  /\ Retention.predicted_churn r = 0%Q.
Proof.
  destruct (retention_empty_cohort empty_store 0 (31 * ms_per_day) no_policy
              None None eq_refl) as (Hr & Hc & _ & _ & Hp).
  now repeat split.
Defined.

(** The rates are unknown only for an empty cohort. *)
Lemma retention_rate_unknown_iff (st : Store) (dt_start dt_end : Z)
    (flags : Flags) (probs : option (gmap string Q)) (global_prob : option Q) :
  Retention.retention_rate
    (_calc_retention_churn st dt_start dt_end flags probs global_prob) = None
  <-> merged_candidates st dt_start dt_end flags = [].
Proof.
  unfold _calc_retention_churn, retention_of.
  destruct (merged_candidates st dt_start dt_end flags) as [|c l]; cbn.
  - split; reflexivity.
  - split; [|discriminate].
    destruct (Z.eqb_spec (Z.pos (Pos.of_succ_nat (length l))) 0); [lia|discriminate].
Qed.

(** ** Calendar window *)

(** X1. For a datetime with fields in range, [get_month_bounds] fails only
    in December of [MAXYEAR]; otherwise it returns the first instant of the
    month of [now] and the first instant of the following month (January of
    the next year after December), with [start <= now < end]. *)
Theorem get_month_bounds_window (now_utc : DateTime.t) :
  valid_datetime now_utc ->
  (get_month_bounds now_utc = None
   <-> DateTime.year now_utc = MAXYEAR /\ DateTime.month now_utc = 12)
  /\ forall start end_,
       get_month_bounds now_utc = Some (start, end_) ->
       DateTime.year start = DateTime.year now_utc
       /\ DateTime.month start = DateTime.month now_utc
       /\ first_instant_of_month start /\ first_instant_of_month end_
       /\ month_index end_ = month_index start + 1
       /\ (DateTime.month now_utc = 12 ->
           DateTime.year end_ = DateTime.year now_utc + 1
           /\ DateTime.month end_ = 1)
       /\ valid_datetime start /\ valid_datetime end_
       /\ dt_le start now_utc /\ dt_lt now_utc end_.
Proof.
  intros (Hy & Hm & Hd & Hh & Hmi & Hs & Hus). unfold get_month_bounds.
  destruct now_utc as [y m d h mi s us]. cbn in *.
  destruct (Z.eqb_spec m 12) as [->|Hne].
  - destruct (Z.leb_spec (y + 1) MAXYEAR) as [Hle|Hgt].
    + split; [split; [discriminate | lia]|].
      intros start end_ [= <- <-].
      unfold first_instant_of_month, month_index, valid_datetime, dt_le,
        dt_lt, MAXYEAR in *. cbn.
      repeat (split; [lia|]). split.
      * destruct (Z.eq_dec d 1) as [->|?];
          [destruct (Z.eq_dec h 0) as [->|?];
            [destruct (Z.eq_dec mi 0) as [->|?];
              [destruct (Z.eq_dec s 0) as [->|?];
                [destruct (Z.eq_dec us 0) as [->|?]; [now left|]|]|]|]|];
          right; lia.
      * lia.
    + split; [split; [intros _; unfold MAXYEAR in *; lia | reflexivity]|].
      discriminate.
  - split; [split; [discriminate | lia]|].
    intros start end_ [= <- <-].
    unfold first_instant_of_month, month_index, valid_datetime, dt_le,
      dt_lt, MAXYEAR in *. cbn.
    repeat (split; [lia|]). split.
    + destruct (Z.eq_dec d 1) as [->|?];
        [destruct (Z.eq_dec h 0) as [->|?];
          [destruct (Z.eq_dec mi 0) as [->|?];
            [destruct (Z.eq_dec s 0) as [->|?];
              [destruct (Z.eq_dec us 0) as [->|?]; [now left|]|]|]|]|];
        right; lia.
    + lia.
Qed.

Lemma get_month_bounds_window_witness :
  get_month_bounds (DateTime.mk 2025 12 31 23 59 59 999999)
  = Some (DateTime.mk 2025 12 1 0 0 0 0, DateTime.mk 2026 1 1 0 0 0 0)
  /\ dt_lt (DateTime.mk 2025 12 31 23 59 59 999999)
           (DateTime.mk 2026 1 1 0 0 0 0).
Proof.
  split; [reflexivity|].
  assert (valid_datetime (DateTime.mk 2025 12 31 23 59 59 999999)) as Hv.
  { unfold valid_datetime, MAXYEAR. cbn. lia. }
  destruct (get_month_bounds_window _ Hv) as [_ Hw].
  exact (proj2 (proj2 (proj2 (proj2 (proj2 (proj2 (proj2 (proj2 (proj2
           (Hw _ _ eq_refl)))))))))).
Defined.

(** X2. Month windows tile: the window computed at the end of a window
    starts at that end, and the window computed at the start of a window is
    the same window. *)
Theorem get_month_bounds_tiles (now_utc start end_ : DateTime.t) :
  get_month_bounds now_utc = Some (start, end_) ->
  get_month_bounds start = Some (start, end_)
  /\ forall start' end', get_month_bounds end_ = Some (start', end') ->
       start' = end_.
Proof.
  unfold get_month_bounds. destruct now_utc as [y m d h mi s us]. cbn.
  destruct (Z.eqb_spec m 12) as [->|Hne].
  - destruct (Z.leb_spec (y + 1) MAXYEAR); [|discriminate].
    intros [= <- <-]. cbn. split.
    + destruct (Z.leb_spec (y + 1) MAXYEAR); [reflexivity|lia].
    + now intros start' end' [= <- <-].
  - intros [= <- <-]. cbn. split.
    + destruct (Z.eqb_spec m 12); [contradiction|reflexivity].
    + intros start' end'.
      destruct (m + 1 =? 12);
        [destruct (y + 1 <=? MAXYEAR); [|discriminate]|];
        now intros [= <- <-].
Qed.

Lemma get_month_bounds_tiles_witness :
  get_month_bounds (DateTime.mk 2025 12 1 0 0 0 0)
  = Some (DateTime.mk 2025 12 1 0 0 0 0, DateTime.mk 2026 1 1 0 0 0 0).
Proof.
  exact (proj1 (get_month_bounds_tiles
                  (DateTime.mk 2025 12 31 23 59 59 999999)
                  (DateTime.mk 2025 12 1 0 0 0 0)
                  (DateTime.mk 2026 1 1 0 0 0 0) eq_refl)).
Defined.

(** ** Table discovery *)

Lemma prefix_refl (s : string) : String.prefix s s = true.
Proof.
  induction s as [|a s IH]; [reflexivity|].
  cbn. now destruct (Ascii.ascii_dec a a).
Qed.

Lemma hint_truthy_some (name_hint : option string) :
  hint_truthy name_hint = true ->
  exists h, name_hint = Some h /\ h <> "".
Proof.
  destruct name_hint as [h|]; [|discriminate]. cbn.
  destruct (String.eqb_spec h ""); [discriminate|]. eauto.
Qed.

Lemma resolve_found_member (name_hint : option string)
    (candidates : list string) (table : string) :
  resolve name_hint candidates = Found table -> table ∈ candidates.
Proof.
  unfold resolve. cbn zeta.
  destruct (hint_truthy name_hint
            && bool_decide (default "" name_hint ∈ candidates)) eqn:E1.
  { apply andb_prop in E1 as [_ Hin]. apply bool_decide_eq_true_1 in Hin.
    now intros [= <-]. }
  repeat match goal with
  | |- context [find ?f candidates] =>
      let E := fresh "E" in
      destruct (find f candidates) as [cand|] eqn:E;
      [apply find_some in E as [Hin _]; intros [= <-];
       now apply list_elem_of_In|]
  end.
  intros H. discriminate H.
Qed.

(** X3. Whatever [resolve] returns is one of the candidates.  With a hint
    the result starts with the hint (the hint is never empty then); without
    one it contains ["key"], ["plan"] or ["payment"]. *)
Theorem resolve_sound (name_hint : option string) (candidates : list string)
    (table : string) :
  resolve name_hint candidates = Found table ->
  table ∈ candidates
  /\ (forall h, name_hint = Some h ->
        h <> "" /\ String.prefix h table = true)
  /\ (name_hint = None ->
        exists x, x ∈ discovery_keywords /\ contains x table = true).
Proof.
  unfold resolve. cbn zeta.
  destruct (hint_truthy name_hint && bool_decide (default "" name_hint ∈ candidates))
    eqn:E1.
  { apply andb_prop in E1 as [Ht Hin]. apply bool_decide_eq_true_1 in Hin.
    destruct (hint_truthy_some _ Ht) as (h & -> & Hne). cbn in *.
    intros [= <-]. split; [exact Hin|]. split; [|discriminate].
    intros h' [= <-]. split; [exact Hne | apply prefix_refl]. }
  destruct (find _ candidates) as [cand|] eqn:E2.
  { apply find_some in E2 as [Hin Hc]. apply andb_prop in Hc as [Ht Hp].
    destruct (hint_truthy_some _ Ht) as (h & -> & Hne). cbn in *.
    intros [= <-]. split; [now apply list_elem_of_In|].
    split; [|discriminate]. intros h' [= <-]. now split. }
  match goal with
  | |- context [find ?f candidates] =>
      destruct (find f candidates) as [cand|] eqn:E3
  end; [|intros H; discriminate H].
  apply find_some in E3 as [Hin Hc]. apply andb_prop in Hc as [Hn Hk].
  apply bool_decide_eq_true_1 in Hn. subst name_hint.
  intros [= <-]. split; [now apply list_elem_of_In|].
  split; [discriminate|]. intros _.
  apply existsb_exists in Hk as (x & Hx & Hc).
  exists x. split; [now apply list_elem_of_In | exact Hc].
Qed.

Lemma resolve_sound_witness :
  "keys_v2" ∈ ["users"; "keys_v2"; "tariffs"]
  /\ String.prefix "keys" "keys_v2" = true.
Proof.
  destruct (resolve_sound (Some "keys") ["users"; "keys_v2"; "tariffs"]
              "keys_v2" eq_refl) as (Hin & Hp & _).
  split; [exact Hin|]. exact (proj2 (Hp "keys" eq_refl)).
Defined.

(** X4. With a non-empty hint, [resolve] fails exactly when no candidate
    starts with the hint; keyword discovery is not tried, and the message
    names the hint.  An exact match is returned even when an earlier
    candidate merely starts with the hint. *)
Theorem resolve_with_hint (h : string) (candidates : list string) :
  h <> "" ->
  ((exists msg, resolve (Some h) candidates = LookupError msg)
   <-> forall cand, cand ∈ candidates -> String.prefix h cand = false)
  /\ (forall msg, resolve (Some h) candidates = LookupError msg ->
        msg = "Table for " +:+ h +:+ " not found")
  /\ (h ∈ candidates -> resolve (Some h) candidates = Found h).
Proof.
  intros Hne. unfold resolve, hint_truthy. cbn zeta. cbn [default from_option id].
  destruct (String.eqb_spec h "") as [|_]; [contradiction|]. cbn [negb andb].
  split; [|split].
  - case_bool_decide as Hin.
    { split; [intros [msg [=]]|].
      intros Hall. specialize (Hall h Hin). now rewrite prefix_refl in Hall. }
    destruct (find _ candidates) as [cand|] eqn:E2.
    { apply find_some in E2 as [Hc Hp]. split; [intros [msg [=]]|].
      intros Hall. apply list_elem_of_In in Hc. specialize (Hall _ Hc).
      cbn in Hp. congruence. }
    match goal with
    | |- context [find ?f candidates] =>
        destruct (find f candidates) as [cand|] eqn:E3
    end.
    { apply find_some in E3 as [_ Hc]. apply andb_prop in Hc as [Hn _].
      apply bool_decide_eq_true_1 in Hn. discriminate Hn. }
    split; [|eauto]. intros _ cand Hc. apply list_elem_of_In in Hc.
    exact (find_none _ _ E2 _ Hc).
  - case_bool_decide; [discriminate|].
    repeat match goal with
    | |- context [find ?f candidates] =>
        destruct (find f candidates); [discriminate|]
    end.
    now intros msg [= <-].
  - intros Hin. now rewrite bool_decide_eq_true_2.
Qed.

Lemma resolve_with_hint_witness :
  resolve (Some "keys") ["keys_old"; "keys"] = Found "keys"
  /\ resolve (Some "keys") ["tariffs"; "key"]
     = LookupError "Table for keys not found".
Proof.
  split.
  - apply (proj2 (proj2 (resolve_with_hint "keys" ["keys_old"; "keys"]
                           ltac:(discriminate)))).
    apply list_elem_of_In. cbn. tauto.
  - destruct (resolve (Some "keys") ["tariffs"; "key"]) as [t|msg] eqn:E;
      [discriminate E|].
    now rewrite (proj1 (proj2 (resolve_with_hint "keys" ["tariffs"; "key"]
                                 ltac:(discriminate))) msg E).
Defined.

Lemma find_pointwise {A : Type} (f g : A -> bool) (l : list A) :
  (forall a, f a = g a) -> find f l = find g l.
Proof.
  intros Hfg. induction l as [|a l IH]; [reflexivity|].
  cbn. now rewrite Hfg, IH.
Qed.

Lemma find_never {A : Type} (l : list A) : find (fun _ => false) l = None.
Proof. induction l as [|a l IH]; [reflexivity | exact IH]. Qed.

Lemma find_first {A : Type} (f : A -> bool) (l : list A) (a : A) :
  find f l = Some a ->
  exists before after,
    l = (before ++ a :: after)%list /\ f a = true
    /\ forall t, t ∈ before -> f t = false.
Proof.
  induction l as [|b l IH]; [discriminate|]. cbn.
  destruct (f b) eqn:E.
  - intros [= <-]. exists [], l. split; [reflexivity|]. split; [exact E|].
    intros t Ht. now apply elem_of_nil in Ht.
  - intros Hfind. destruct (IH Hfind) as (before & after & -> & Ha & Hb).
    exists (b :: before), after. split; [reflexivity|]. split; [exact Ha|].
    intros t Ht. apply elem_of_cons in Ht as [ -> | Ht]; [exact E | now apply Hb].
Qed.

Lemma find_nothing {A : Type} (f : A -> bool) (l : list A) :
  find f l = None <-> forall t, t ∈ l -> f t = false.
Proof.
  split.
  - intros Hnone t Ht. apply list_elem_of_In in Ht.
    exact (find_none _ _ Hnone _ Ht).
  - intros Hall. destruct (find f l) as [a|] eqn:E; [|reflexivity].
    apply find_some in E as [Hin Ha]. apply list_elem_of_In in Hin.
    rewrite (Hall _ Hin) in Ha. discriminate Ha.
Qed.

Lemma resolve_without_hint (candidates : list string) :
  resolve None candidates
  = match find has_keyword candidates with
    | Some cand => Found cand
    | None => LookupError "Table for unknown not found"
    end.
Proof.
  unfold resolve. cbn zeta. cbn [hint_truthy andb].
  rewrite find_never.
  rewrite (find_pointwise _ has_keyword).
  - now destruct (find has_keyword candidates).
  - intros cand. now rewrite bool_decide_eq_true_2.
Qed.

(** X5. When the configuration names none of the three tables, discovery by
    keyword picks the same table for keys, plans and payments: the first
    table, in the order of [table_names], whose name contains ["key"],
    ["plan"] or ["payment"].  Discovery fails exactly when no table name
    contains a keyword, and the message then names the table as unknown. *)
Theorem reflect_without_hints_same_table (tables_cfg : gmap string string)
    (table_names : list string) :
  tables_cfg !! "keys" = None -> tables_cfg !! "plans" = None ->
  tables_cfg !! "payments" = None ->
  (forall k p y,
     reflect_table_names tables_cfg table_names = Found (k, p, y) ->
     k = p /\ p = y /\ k ∈ table_names
     /\ exists before after,
         table_names = (before ++ k :: after)%list
         /\ has_keyword k = true
         /\ forall t, t ∈ before -> has_keyword t = false)
  /\ ((exists msg, reflect_table_names tables_cfg table_names
                   = LookupError msg)
      <-> forall t, t ∈ table_names -> has_keyword t = false)
  /\ (forall msg,
        reflect_table_names tables_cfg table_names = LookupError msg ->
        msg = "Table for unknown not found")
  /\ reflect_table_names tables_cfg table_names
     = match find has_keyword table_names with
       | Some t => Found (t, t, t)
       | None => LookupError "Table for unknown not found"
       end.
Proof.
  intros Hk Hp Hy.
  assert (reflect_table_names tables_cfg table_names
          = match find has_keyword table_names with
            | Some t => Found (t, t, t)
            | None => LookupError "Table for unknown not found"
            end) as Heq.
  { unfold reflect_table_names. rewrite Hk, Hp, Hy, resolve_without_hint.
    now destruct (find has_keyword table_names). }
  split; [|split; [|split; [|exact Heq]]].
  - intros k p y. rewrite Heq.
    destruct (find has_keyword table_names) as [t|] eqn:E; [|discriminate].
    intros [= <- <- <-]. split; [reflexivity|]. split; [reflexivity|].
    destruct (find_first _ _ _ E) as (before & after & Hsplit & Ht & Hb).
    split.
    + rewrite Hsplit. apply elem_of_app. right. apply elem_of_cons. now left.
    + now exists before, after.
  - rewrite Heq. rewrite <- find_nothing.
    destruct (find has_keyword table_names) as [t|].
    + split; [intros [msg H]; discriminate H | discriminate].
    + split; [reflexivity | eauto].
  - intros msg. rewrite Heq.
    destruct (find has_keyword table_names); [discriminate|].
    now intros [= <-].
Qed.

Lemma reflect_without_hints_same_table_witness :
  let table_names := ["users"; "tariff_plans"; "keys"; "payments"] in
  reflect_table_names ∅ table_names
    = Found ("tariff_plans", "tariff_plans", "tariff_plans")
  /\ (exists before after,
        table_names = (before ++ "tariff_plans" :: after)%list
        /\ has_keyword "tariff_plans" = true
        /\ forall t, t ∈ before -> has_keyword t = false)
  /\ reflect_table_names ∅ ["users"; "servers"]
     = LookupError "Table for unknown not found".
Proof.
  intros table_names.
  destruct (reflect_without_hints_same_table ∅ table_names
              ltac:(apply lookup_empty) ltac:(apply lookup_empty)
              ltac:(apply lookup_empty)) as (Hfound & _ & _ & Heq).
  assert (reflect_table_names ∅ table_names
          = Found ("tariff_plans", "tariff_plans", "tariff_plans")) as Hres
    by (rewrite Heq; reflexivity).
  split; [exact Hres|]. split.
  - exact (proj2 (proj2 (proj2 (Hfound _ _ _ Hres)))).
  - destruct (reflect_without_hints_same_table ∅ ["users"; "servers"]
                ltac:(apply lookup_empty) ltac:(apply lookup_empty)
                ltac:(apply lookup_empty)) as (_ & _ & _ & Heq').
    rewrite Heq'. reflexivity.
Defined.

(** ** The cohort query and the estimator over a store *)

Lemma prepared_bucket_range (duration_days : Z) :
  prepared_bucket duration_days ∈ four_buckets.
Proof.
  unfold prepared_bucket, four_buckets.
  destruct (sql_between duration_days 25 40); [set_solver|].
  destruct (sql_between duration_days 80 100); [set_solver|].
  destruct (sql_between duration_days 360 390); set_solver.
Qed.

Lemma cohort_prepared_bucket (st : Store) (months_ms : list (Z * Z))
    (r : Prepared.t) :
  r ∈ cohort_prepared st months_ms -> Prepared.bucket r ∈ four_buckets.
Proof.
  unfold cohort_prepared. intros Hr.
  apply list_elem_of_bind in Hr as ([k p] & Hr & _).
  apply list_elem_of_bind in Hr as ([s e] & Hr & _).
  destruct (in_window _ s e); [|now apply elem_of_nil in Hr].
  apply list_elem_of_singleton in Hr as ->. apply prepared_bucket_range.
Qed.

(** Every row of the query has a canonical bucket, a cohort of at least one
    and a renewed count between 0 and the cohort; buckets do not repeat. *)
Lemma cohort_query_rows (st : Store) (months_ms : list (Z * Z)) (grace_ms : Z)
    (flags : Flags) :
  NoDup ((fun row : cohort_row => row.1.1)
           <$> cohort_query st months_ms grace_ms flags)
  /\ Forall (fun row : cohort_row =>
               row.1.1 ∈ four_buckets
               /\ exists C R, row.1.2 = Some C /\ row.2 = Some R
                    /\ 1 <= C /\ 0 <= R <= C)
            (cohort_query st months_ms grace_ms flags).
Proof.
  unfold cohort_query.
  set (kept := filter _ (cohort_prepared st months_ms)).
  assert (forall r, r ∈ kept -> Prepared.bucket r ∈ four_buckets) as Hkept.
  { intros r Hr. apply list_elem_of_filter in Hr as [_ Hr].
    now apply (cohort_prepared_bucket st months_ms). }
  pose proof (NoDup_remove_dups (Prepared.bucket <$> kept)) as Hnd.
  assert (forall b, b ∈ remove_dups (Prepared.bucket <$> kept) ->
                    exists r, r ∈ kept /\ Prepared.bucket r = b) as Hin.
  { intros b Hb. rewrite elem_of_remove_dups in Hb.
    apply list_elem_of_fmap in Hb as (r & -> & Hr). eauto. }
  revert Hnd Hin. generalize (remove_dups (Prepared.bucket <$> kept)).
  intros bs. induction bs as [|b bs IH]; intros Hnd Hin.
  - split; constructor.
  - apply NoDup_cons in Hnd as [Hb Hnd].
    destruct IH as [IH1 IH2]; [exact Hnd | intros b' Hb'; apply Hin; now right |].
    rewrite bind_cons. cbn [app]. split.
    + rewrite fmap_cons. cbn [fst]. apply NoDup_cons. split; [|exact IH1].
      intros Hb'. apply Hb.
      apply list_elem_of_fmap in Hb' as ([[b' c'] r'] & Heq & Hrow).
      cbn in Heq. subst b'.
      apply list_elem_of_bind in Hrow as (b'' & Hrow & Hb'').
      apply list_elem_of_singleton in Hrow. now inversion Hrow; subst.
    + constructor; [|exact IH2]. cbn [fst snd].
      destruct (Hin b ltac:(left)) as (r & Hr & Hrb).
      split; [rewrite <- Hrb; now apply Hkept|].
      eexists _, _. split; [reflexivity|]. split; [reflexivity|].
      set (group := filter (fun r => Prepared.bucket r = b) kept).
      assert (r ∈ group) as Hrg by (apply list_elem_of_filter; now split).
      pose proof (length_filter
                    (fun r => Prepared.end_ms r + grace_ms <= Prepared.expiry_time r)
                    group) as Hlen.
      destruct group as [|g0 group']; [now apply elem_of_nil in Hrg|].
      cbn [length] in *. lia.
Qed.

Lemma totals_step_lookup (totals : gmap string (Z * Z)) (row : cohort_row)
    (b : string) :
  totals_step totals row !! b
  = if decide (row.1.1 = b)
    then Some ((default (0, 0) (totals !! b)).1 + default 0 row.1.2,
               (default (0, 0) (totals !! b)).2 + default 0 row.2)
    else totals !! b.
Proof.
  destruct row as [[bucket cohort] renewed]. unfold totals_step. cbn [fst snd].
  destruct (default (0, 0) (totals !! bucket)) as [C R] eqn:E.
  rewrite lookup_insert. destruct (decide (bucket = b)) as [<-|]; [|reflexivity].
  now rewrite E.
Qed.

(** Folding rows with pairwise distinct buckets: a bucket's entry grows by
    its own row and by nothing else. *)
Lemma totals_fold_lookup (rows : list cohort_row) (totals : gmap string (Z * Z))
    (b : string) :
  NoDup ((fun row : cohort_row => row.1.1) <$> rows) ->
  (b ∉ (fun row : cohort_row => row.1.1) <$> rows ->
   foldl totals_step totals rows !! b = totals !! b)
  /\ (forall c r, (b, c, r) ∈ rows ->
      foldl totals_step totals rows !! b
      = Some ((default (0, 0) (totals !! b)).1 + default 0 c,
              (default (0, 0) (totals !! b)).2 + default 0 r)).
Proof.
  revert totals. induction rows as [|row rows IH]; intros totals Hnd.
  - split; [reflexivity|]. intros c r Hin. now apply elem_of_nil in Hin.
  - rewrite fmap_cons in Hnd. apply NoDup_cons in Hnd as [Hrow Hnd].
    cbn [foldl]. destruct (IH (totals_step totals row) Hnd) as [IH1 IH2].
    split.
    + intros Hb. rewrite fmap_cons in Hb. apply not_elem_of_cons in Hb as [Hne Hb].
      rewrite (IH1 Hb), totals_step_lookup.
      destruct (decide (row.1.1 = b)); [congruence|reflexivity].
    + intros c r Hin. apply elem_of_cons in Hin as [<-|Hin].
      * rewrite (IH1 Hrow), totals_step_lookup. cbn [fst snd].
        now rewrite decide_True.
      * rewrite (IH2 c r Hin), totals_step_lookup.
        destruct (decide (row.1.1 = b)) as [E|]; [|reflexivity].
        exfalso. apply Hrow. rewrite E.
        apply list_elem_of_fmap. now exists (b, c, r).
Qed.

Lemma totals_init_lookup (b : string) :
  totals_init !! b = if bool_decide (b ∈ four_buckets) then Some (0, 0) else None.
Proof.
  unfold totals_init, four_buckets. rewrite !lookup_insert, lookup_empty.
  case_bool_decide as Hb.
  - apply list_elem_of_In in Hb. cbn in Hb.
    destruct Hb as [<-|[<-|[<-|[<-|[]]]]]; reflexivity.
  - repeat case_decide; try reflexivity; subst; exfalso; apply Hb;
      apply list_elem_of_In; cbn; tauto.
Qed.

Lemma cohort_query_row_of (st : Store) (months_ms : list (Z * Z)) (grace_ms : Z)
    (flags : Flags) (b : string) :
  (cohort_members st months_ms flags b <> [] ->
   (b, Some (Z.of_nat (length (cohort_members st months_ms flags b))),
       Some (Z.of_nat (length (cohort_renewed st months_ms grace_ms flags b))))
   ∈ cohort_query st months_ms grace_ms flags)
  /\ (cohort_members st months_ms flags b = [] ->
      b ∉ (fun row : cohort_row => row.1.1)
            <$> cohort_query st months_ms grace_ms flags).
Proof.
  unfold cohort_query, cohort_renewed, cohort_members.
  set (kept := filter _ (cohort_prepared st months_ms)). split.
  - intros Hne. apply list_elem_of_bind. exists b.
    split; [apply list_elem_of_singleton; reflexivity|].
    rewrite elem_of_remove_dups.
    destruct (filter _ kept) as [|r l] eqn:E; [contradiction|].
    assert (r ∈ filter (fun r => Prepared.bucket r = b) kept) as Hr
      by (rewrite E; left).
    apply list_elem_of_filter in Hr as [<- Hr].
    apply list_elem_of_fmap. eauto.
  - intros Hnil Hin.
    apply list_elem_of_fmap in Hin as ([[b' c] r] & Heq & Hrow).
    cbn in Heq. subst b'.
    apply list_elem_of_bind in Hrow as (b' & Hrow & Hb').
    apply list_elem_of_singleton in Hrow. inversion Hrow; subst b'.
    rewrite elem_of_remove_dups in Hb'.
    apply list_elem_of_fmap in Hb' as (x & Hx & Hxin).
    apply (filter_nil_not_elem_of _ _ x Hnil); [now symmetry | exact Hxin].
Qed.

Lemma estimate_over_store_lookup (st : Store) (months_ms : list (Z * Z))
    (grace_days : Z) (flags : Flags) (b : string) :
  estimate_over_store st months_ms grace_days flags !! b
  = if bool_decide (b ∈ four_buckets)
    then Some (smoothed_prob
                 (Z.of_nat (length (cohort_members st months_ms flags b)),
                  Z.of_nat (length (cohort_renewed st months_ms
                                      (grace_days * ms_per_day) flags b))))
    else None.
Proof.
  unfold estimate_over_store, estimate_auto_renewal_probs, aggregate_totals.
  rewrite lookup_fmap.
  destruct (cohort_query_rows st months_ms (grace_days * ms_per_day) flags)
    as [Hnd Hall].
  destruct (totals_fold_lookup _ totals_init b Hnd) as [Hout Hin].
  destruct (cohort_query_row_of st months_ms (grace_days * ms_per_day) flags b)
    as [Hsome Hnone].
  destruct (cohort_members st months_ms flags b) as [|r0 l0] eqn:Em.
  - rewrite (Hout (Hnone eq_refl)), totals_init_lookup.
    case_bool_decide; [|reflexivity].
    unfold cohort_renewed. rewrite Em. reflexivity.
  - specialize (Hsome ltac:(discriminate)).
    rewrite (Hin _ _ Hsome), totals_init_lookup.
    rewrite Forall_forall in Hall. destruct (Hall _ Hsome) as [Hb _].
    cbn [fst] in Hb. rewrite bool_decide_eq_true_2 by exact Hb.
    cbn [default from_option id fst snd fmap option_fmap option_map Z.add].
    reflexivity.
Qed.

(** X6. The estimator over a store, end to end: the result has an entry
    exactly for the four buckets, and the entry of a bucket is the smoothed
    probability of the pair (number of kept cohort rows in the bucket,
    number of those whose expiry is at or after the month end plus grace). *)
Theorem estimate_over_store_spec (st : Store) (months_ms : list (Z * Z))
    (grace_days : Z) (flags : Flags) (b : string) :
  let est := estimate_over_store st months_ms grace_days flags in
  let cohort := Z.of_nat (length (cohort_members st months_ms flags b)) in
  let renewed :=
    Z.of_nat (length (cohort_renewed st months_ms (grace_days * ms_per_day)
                        flags b)) in
  (is_Some (est !! b) <-> b ∈ four_buckets)
  /\ (b ∈ four_buckets -> est !! b = Some (smoothed_prob (cohort, renewed)))
  /\ 0 <= renewed <= cohort.
Proof.
  cbn zeta. rewrite estimate_over_store_lookup. split; [|split].
  - case_bool_decide as Hb; split; intros H; try assumption; eauto.
    + now destruct H.
    + contradiction.
  - intros Hb. now rewrite bool_decide_eq_true_2.
  - unfold cohort_renewed.
    pose proof (length_filter
      (fun r => Prepared.end_ms r + grace_days * ms_per_day
                <= Prepared.expiry_time r)
      (cohort_members st months_ms flags b)). lia.
Qed.

Lemma estimate_over_store_spec_witness :
  estimate_over_store scenario_store [(0, 31 * ms_per_day)] 0 no_policy !! "1m"
  = Some (smoothed_prob (3, 3)).
Proof.
  apply (proj1 (proj2 (estimate_over_store_spec scenario_store
                         [(0, 31 * ms_per_day)] 0 no_policy "1m"))).
  apply list_elem_of_here.
Defined.

Lemma smoothed_prob_range (C R : Z) :
  0 <= R <= C ->
  (0 < smoothed_prob (C, R))%Q /\ (smoothed_prob (C, R) <= 1)%Q
  /\ (0 < C <-> (smoothed_prob (C, R) < 1)%Q).
Proof.
  intros HR. destruct (Z.lt_ge_cases 0 C) as [HC|HC].
  - rewrite smoothed_prob_positive_cohort by assumption.
    destruct (laplace_strictly_inside C R HC HR) as [H0 H1].
    split; [exact H0|]. split; [now apply Qlt_le_weak|]. now split.
  - rewrite smoothed_prob_empty_cohort by assumption.
    split; [reflexivity|]. split; [apply Qle_refl|].
    split; [lia|]. intros H. now apply Qlt_irrefl in H.
Qed.

(** X7. Every probability the estimator returns for a store lies in
    [(0, 1]], and it is below 1 exactly for the buckets that have at least
    one cohort member. *)
Theorem estimate_over_store_range (st : Store) (months_ms : list (Z * Z))
    (grace_days : Z) (flags : Flags) (b : string) (p : Q) :
  estimate_over_store st months_ms grace_days flags !! b = Some p ->
  (0 < p)%Q /\ (p <= 1)%Q
  /\ ((p < 1)%Q <-> cohort_members st months_ms flags b <> []).
Proof.
  rewrite estimate_over_store_lookup. case_bool_decide; [|discriminate].
  intros [= <-]. unfold cohort_renewed.
  set (members := cohort_members st months_ms flags b).
  set (P := fun r => Prepared.end_ms r + grace_days * ms_per_day
                     <= Prepared.expiry_time r).
  pose proof (length_filter P members) as Hlen.
  assert (0 <= Z.of_nat (length (filter P members))
          <= Z.of_nat (length members)) as Hb by lia.
  destruct (smoothed_prob_range _ _ Hb) as (H0 & H1 & Hlt).
  split; [exact H0|]. split; [exact H1|]. rewrite <- Hlt.
  destruct members; cbn [length]; split; intros; try lia; congruence.
Qed.

Lemma estimate_over_store_range_witness :
  exists p, estimate_over_store scenario_store [(0, 31 * ms_per_day)] 0
              no_policy !! "1m" = Some p
            /\ (0 < p)%Q /\ (p < 1)%Q.
Proof.
  exists (4 # 5)%Q.
  destruct (estimate_over_store_range scenario_store [(0, 31 * ms_per_day)] 0
              no_policy "1m" (4 # 5) ltac:(reflexivity)) as (H0 & _ & Hlt).
  split; [reflexivity|]. split; [exact H0|].
  apply Hlt. vm_compute. discriminate.
Defined.

(** X8. In the cohort query [AND] binds tighter than [OR], so with
    [SKIP_FROZEN] off the trial filter is not applied: the query and the
    estimate are the same whether [EXCLUDE_TRIALS] is on or off, and no row
    is filtered out at all. *)
Theorem exclude_trials_needs_skip_frozen (st : Store)
    (months_ms : list (Z * Z)) (grace_days : Z) (exclude_trials : bool) :
  let flags := {| SKIP_FROZEN := false; EXCLUDE_TRIALS := exclude_trials |} in
  (forall r, cohort_where flags r = true)
  /\ cohort_query st months_ms (grace_days * ms_per_day) flags
     = cohort_query st months_ms (grace_days * ms_per_day) no_policy
  /\ estimate_over_store st months_ms grace_days flags
     = estimate_over_store st months_ms grace_days no_policy.
Proof.
  cbn zeta.
  assert (cohort_query st months_ms (grace_days * ms_per_day)
            {| SKIP_FROZEN := false; EXCLUDE_TRIALS := exclude_trials |}
          = cohort_query st months_ms (grace_days * ms_per_day) no_policy) as E.
  { unfold cohort_query.
    rewrite (list_filter_iff
               (fun r => cohort_where {| SKIP_FROZEN := false;
                                         EXCLUDE_TRIALS := exclude_trials |} r
                         = true)
               (fun r => cohort_where no_policy r = true)); [reflexivity|].
    intros r. unfold cohort_where. cbn. tauto. }
  split; [reflexivity|]. split; [exact E|].
  unfold estimate_over_store. now rewrite E.
Qed.

(** With [SKIP_FROZEN] on, both filters apply. *)
Lemma cohort_where_skip_frozen (exclude_trials : bool) (r : Prepared.t) :
  cohort_where {| SKIP_FROZEN := true; EXCLUDE_TRIALS := exclude_trials |} r
  = negb (Prepared.is_frozen r)
    && (negb exclude_trials
        || negb (bool_decide (Prepared.group_code r = Some "trial"))).
Proof. reflexivity. Qed.

Lemma smoothed_prob_mono (C R1 R2 : Z) :
  0 <= R2 <= R1 -> R1 <= C ->
  (smoothed_prob (C, R2) <= smoothed_prob (C, R1))%Q.
Proof.
  intros HR HC. destruct (Z.lt_ge_cases 0 C) as [Hpos|Hle].
  - rewrite !smoothed_prob_positive_cohort by lia.
    unfold Qdiv. apply Qmult_le_compat_r.
    + rewrite <- Zle_Qle. lia.
    + apply Qinv_le_0_compat. change 0%Q with (inject_Z 0).
      rewrite <- Zle_Qle. lia.
  - rewrite !smoothed_prob_empty_cohort by assumption. apply Qle_refl.
Qed.

(** X9. A longer grace period never raises an estimated probability. *)
Theorem estimate_grace_monotone (st : Store) (months_ms : list (Z * Z))
    (grace1 grace2 : Z) (flags : Flags) (b : string) (p1 p2 : Q) :
  grace1 <= grace2 ->
  estimate_over_store st months_ms grace1 flags !! b = Some p1 ->
  estimate_over_store st months_ms grace2 flags !! b = Some p2 ->
  (p2 <= p1)%Q.
Proof.
  intros Hg. rewrite !estimate_over_store_lookup.
  case_bool_decide; [|discriminate]. intros [= <-] [= <-].
  set (members := cohort_members st months_ms flags b).
  unfold cohort_renewed. fold members.
  set (P1 := fun r => Prepared.end_ms r + grace1 * ms_per_day
                      <= Prepared.expiry_time r).
  set (P2 := fun r => Prepared.end_ms r + grace2 * ms_per_day
                      <= Prepared.expiry_time r).
  assert (length (filter P2 members) <= length (filter P1 members))%nat as Hlen.
  { rewrite <- (list_filter_filter_l P2 P1 members).
    - apply length_filter.
    - intros r. unfold P1, P2, ms_per_day. lia. }
  pose proof (length_filter P1 members).
  apply smoothed_prob_mono; lia.
Qed.

Lemma estimate_grace_monotone_witness :
  ((1 # 5) <= (4 # 5))%Q.
Proof.
  apply (estimate_grace_monotone scenario_store [(0, 31 * ms_per_day)] 0 30
           no_policy "1m" (4 # 5) (1 # 5) ltac:(lia));
    reflexivity.
Defined.

(** ** Cash received and KPIs *)

Lemma get_received_fields (st : Store) (dt_start dt_end : Z) (flags : Flags) :
  let r := get_received st dt_start dt_end flags in
  r !! "net" = Some (sum_amounts (successful_in st dt_start dt_end))
  /\ r !! "paid" = r !! "net" /\ r !! "refunds" = Some 0%Q.
Proof. cbn zeta. unfold get_received. now rewrite !lookup_insert. Qed.

Lemma net_of_get_received (st : Store) (dt_start dt_end : Z) (flags : Flags) :
  net_of (get_received st dt_start dt_end flags)
  = sum_amounts (successful_in st dt_start dt_end).
Proof.
  unfold net_of. now rewrite (proj1 (get_received_fields st dt_start dt_end flags)).
Qed.

Lemma in_window_split (x a b c : Z) :
  a <= b -> b <= c ->
  (in_window x a c = true <-> in_window x a b = true \/ in_window x b c = true)
  /\ ~ (in_window x a b = true /\ in_window x b c = true).
Proof.
  intros Hab Hbc. unfold in_window.
  destruct (Z.leb_spec a x), (Z.leb_spec b x), (Z.ltb_spec x b),
    (Z.ltb_spec x c); cbn; try lia; intuition discriminate.
Qed.

Lemma sum_amounts_split (l : list Payment.t) (a b c : Z) :
  a <= b -> b <= c ->
  (sum_amounts (filter (fun p => in_window (Payment.created_at p) a c = true
                                 /\ is_success p = true) l)
   == sum_amounts (filter (fun p => in_window (Payment.created_at p) a b = true
                                    /\ is_success p = true) l)
      + sum_amounts (filter (fun p => in_window (Payment.created_at p) b c = true
                                      /\ is_success p = true) l))%Q.
Proof.
  intros Hab Hbc. induction l as [|p l IH]; [reflexivity|].
  rewrite !filter_cons.
  destruct (in_window_split (Payment.created_at p) a b c Hab Hbc) as [Hiff Hex].
  unfold sum_amounts in *.
  repeat case_decide; cbn [foldr];
    try (rewrite IH; ring); try exact IH; exfalso; tauto.
Qed.

(** X10. Cash received is additive over adjacent windows: what was received
    in [[a, b)] and in [[b, c)] adds up to what was received in [[a, c)].
    The [paid] figure equals [net], and [refunds] is always 0. *)
Theorem get_received_additive (st : Store) (a b c : Z) (flags : Flags) :
  a <= b -> b <= c ->
  (net_of (get_received st a b flags) + net_of (get_received st b c flags)
   == net_of (get_received st a c flags))%Q
  /\ get_received st a c flags !! "paid" = get_received st a c flags !! "net"
  /\ get_received st a c flags !! "refunds" = Some 0%Q.
Proof.
  intros Hab Hbc. split.
  - rewrite !net_of_get_received. unfold successful_in.
    symmetry. now apply sum_amounts_split.
  - exact (proj2 (get_received_fields st a c flags)).
Qed.

Lemma get_received_additive_witness :
  (net_of (get_received retention_store (-31 * ms_per_day) (-22 * ms_per_day)
             no_policy)
   + net_of (get_received retention_store (-22 * ms_per_day) 0 no_policy)
   == 200)%Q.
Proof.
  rewrite (proj1 (get_received_additive retention_store (-31 * ms_per_day)
                    (-22 * ms_per_day) 0 no_policy
                    ltac:(vm_compute; discriminate)
                    ltac:(vm_compute; discriminate))).
  reflexivity.
Defined.

Lemma kpi_paid_sum_received (st : Store) (dt_start dt_end : Z) (flags : Flags) :
  (kpi_paid_sum st dt_start dt_end
   == net_of (get_received st dt_start dt_end flags))%Q.
Proof.
  rewrite net_of_get_received. unfold kpi_paid_sum, successful_in.
  induction (payments st) as [|p l IH]; [reflexivity|].
  rewrite !filter_cons.
  destruct (in_window (Payment.created_at p) dt_start dt_end) eqn:Ew.
  - rewrite decide_True by reflexivity. cbn [foldr].
    destruct (is_success p) eqn:Es.
    + rewrite decide_True by (split; reflexivity).
      cbn [sum_amounts foldr]. fold sum_amounts. now rewrite IH.
    + rewrite decide_False by (intros [_ ?]; discriminate).
      rewrite IH. ring.
  - rewrite decide_False by discriminate.
    rewrite decide_False by (intros [? _]; discriminate). exact IH.
Qed.

Lemma kpi_paid_sum_no_payment (st : Store) (dt_start dt_end : Z) :
  kpi_paid_count st dt_start dt_end = 0 ->
  (kpi_paid_sum st dt_start dt_end == 0)%Q.
Proof.
  unfold kpi_paid_count, kpi_paid_sum.
  induction (filter _ (payments st)) as [|p l IH]; [reflexivity|].
  rewrite filter_cons. cbn [foldr].
  destruct (is_success p) eqn:Es.
  - rewrite decide_True by reflexivity. cbn [length]. lia.
  - rewrite decide_False by discriminate. intros H. rewrite (IH H). ring.
Qed.

Lemma Qdiv_mult_cancel (s : Q) (n : Z) :
  0 < n -> (s / inject_Z n * inject_Z n == s)%Q.
Proof.
  intros Hn. unfold Qdiv. rewrite <- Qmult_assoc.
  rewrite (Qmult_comm (/ inject_Z n)), Qmult_inv_r, Qmult_1_r; [reflexivity|].
  intros H. apply (proj1 (inject_Z_injective n 0)) in H. lia.
Qed.

(** X11. The KPI averages multiply back to the cash received in the window:
    [avg_check * paid_count] is the received net amount, and
    [arpu * active_users] is the received net amount when there is an active
    user and 0 otherwise (payments of a month without any active key are
    not spread). *)
Theorem calc_kpis_averages (st : Store) (dt_start dt_end now_ms : Z)
    (flags : Flags) (probs : option (gmap string Q)) (global_prob : option Q) :
  let k := calc_kpis st dt_start dt_end now_ms flags probs global_prob in
  let net := net_of (get_received st dt_start dt_end flags) in
  (Kpis.avg_check k * inject_Z (Kpis.paid_count k) == net)%Q
  /\ (Kpis.arpu k * inject_Z (Kpis.active_users k)
      == if 0 <? Kpis.active_users k then net else 0)%Q
  /\ 0 <= Kpis.paid_count k /\ 0 <= Kpis.active_users k.
Proof.
  cbn zeta. unfold calc_kpis. cbn [Kpis.avg_check Kpis.paid_count Kpis.arpu
                                   Kpis.active_users].
  pose proof (kpi_paid_sum_received st dt_start dt_end flags) as Hnet.
  split; [|split; [|split]].
  - rewrite <- Hnet.
    destruct (Z.ltb_spec 0 (kpi_paid_count st dt_start dt_end)) as [Hpos|Hle].
    + now apply Qdiv_mult_cancel.
    + assert (kpi_paid_count st dt_start dt_end = 0) as E
        by (unfold kpi_paid_count in *; lia).
      rewrite (kpi_paid_sum_no_payment _ _ _ E). ring.
  - destruct (Z.ltb_spec 0 (kpi_active_users st dt_start dt_end flags));
      [rewrite <- Hnet; now apply Qdiv_mult_cancel | ring].
  - unfold kpi_paid_count. lia.
  - unfold kpi_active_users. lia.
Qed.

(** ** Monthly run-rate *)


Lemma mrr_months_round (d : Z) :
  d <> 0 -> mrr_months (Some d) = Z.max 1 (months_of_duration (Some d)).
Proof.
  intros Hd. unfold mrr_months, months_of_duration.
  destruct (Z.eqb_spec d 0); [contradiction|].
  set (m := py_round (inject_Z d / 30)).
  destruct (Z.eqb_spec m 0), (Z.ltb_spec 0 m); cbn; lia.
Qed.

Section Grouping.
Context {A K : Type} `{EqDecision K} (key : A -> K) (f : K -> Q).




End Grouping.





Example mrr_scenario :
  (_calc_mrr_active_base scenario_store 0 no_policy == 800)%Q
  /\ mrr_months (Some 365) = 12 /\ mrr_months (Some 7) = 1
  /\ mrr_months None = 1.
Proof. repeat split. Qed.

(** ** Accrual recognition *)

Lemma accrual_fold_total (rows : list plan_row)
    (acc : Q * gmap string Recognized.t) :
  ((foldl accrual_step acc rows).1
   == acc.1 + foldr (fun row : plan_row =>
                       fun s => inject_Z row.1.1.2 * float_or_zero row.1.2 + s)
                    0 rows)%Q.
Proof.
  revert acc.
  induction rows as [|[[[[[_id name] gcode] cnt] price] dur] rows IH];
    intros acc; cbn [foldl foldr].
  - ring.
  - rewrite IH. cbn [accrual_step fst snd]. ring.
Qed.

Lemma grouped_by_plan_total (st : Store) (cond : Key.t -> Plan.t -> bool) :
  (foldr (fun row : plan_row =>
            fun s => inject_Z row.1.1.2 * float_or_zero row.1.2 + s)
         0 (grouped_by_plan st cond)
   == foldr (fun p s => inject_Z (plan_count st cond p)
                        * float_or_zero (Plan.price_rub p) + s)
            0 (plans st))%Q.
Proof.
  unfold grouped_by_plan. induction (plans st) as [|p ps IH]; [reflexivity|].
  rewrite bind_cons. cbn [foldr]. fold (plan_count st cond p).
  destruct (Z.ltb_spec 0 (plan_count st cond p)) as [Hpos|Hle].
  - cbn [app foldr fst snd]. now rewrite IH.
  - cbn [app]. rewrite IH.
    assert (plan_count st cond p = 0) as -> by (unfold plan_count in *; lia).
    ring.
Qed.

Lemma plan_count_mono (st : Store) (cond1 cond2 : Key.t -> Plan.t -> bool)
    (p : Plan.t) :
  (forall k, cond1 k p = true -> cond2 k p = true) ->
  0 <= plan_count st cond1 p <= plan_count st cond2 p.
Proof.
  intros Himp. unfold plan_count.
  rewrite <- (list_filter_filter_l
                (fun k => Plan.id p = Key.tariff_id k /\ cond1 k p = true)
                (fun k => Plan.id p = Key.tariff_id k /\ cond2 k p = true)
                (keys st)).
  - pose proof (length_filter
        (fun k => Plan.id p = Key.tariff_id k /\ cond1 k p = true)
        (filter (fun k => Plan.id p = Key.tariff_id k /\ cond2 k p = true)
                (keys st))). lia.
  - intros k [? ?]. split; [assumption|]. now apply Himp.
Qed.

Lemma accrual_total_by_plan (st : Store) (dt_start dt_now : Z) (flags : Flags) :
  ((get_recognized_revenue_accrual st dt_start dt_now flags).1
   == foldr (fun p s =>
               inject_Z (plan_count st
                 (fun k p => in_window (accrual_prev_expiry_ms k p) dt_start dt_now
                             && policy_ok flags k p) p)
               * float_or_zero (Plan.price_rub p) + s)
            0 (plans st))%Q.
Proof.
  unfold get_recognized_revenue_accrual, accrual_rows.
  rewrite accrual_fold_total, grouped_by_plan_total. cbn [fst]. ring.
Qed.

(** X13. With non-negative plan prices the recognized (accrual) total is
    non-negative and does not decrease when the evaluation instant moves
    forward: revenue recognized by an earlier [now] stays recognized. *)
Theorem recognized_revenue_monotone (st : Store) (dt_start now1 now2 : Z)
    (flags : Flags) :
  nonneg_prices st -> now1 <= now2 ->
  (0 <= (get_recognized_revenue_accrual st dt_start now1 flags).1)%Q
  /\ ((get_recognized_revenue_accrual st dt_start now1 flags).1
      <= (get_recognized_revenue_accrual st dt_start now2 flags).1)%Q.
Proof.
  intros Hprices Hnow. rewrite !accrual_total_by_plan.
  unfold nonneg_prices in Hprices. revert Hprices.
  generalize (plans st). intros ps.
  induction ps as [|p ps IH]; intros Hprices.
  - split; apply Qle_refl.
  - cbn [foldr]. destruct IH as [IH0 IHle];
      [intros q Hq; apply Hprices; now right|].
    set (c1 := plan_count st _ p). set (c2 := plan_count st _ p).
    assert (0 <= c1 <= c2) as Hc.
    { apply plan_count_mono. intros k. unfold in_window.
      destruct (policy_ok flags k p); [|now rewrite !andb_false_r].
      rewrite !andb_true_r.
      destruct (Z.leb_spec dt_start (accrual_prev_expiry_ms k p)),
        (Z.ltb_spec (accrual_prev_expiry_ms k p) now1),
        (Z.ltb_spec (accrual_prev_expiry_ms k p) now2); cbn; try lia; auto. }
    assert (0 <= float_or_zero (Plan.price_rub p))%Q as Hp.
    { unfold float_or_zero. change 0%Q with (inject_Z 0). rewrite <- Zle_Qle.
      apply Hprices. left. }
    split.
    + rewrite <- (Qplus_0_l 0) at 1. apply Qplus_le_compat; [|exact IH0].
      apply Qmult_le_0_compat; [|exact Hp].
      change 0%Q with (inject_Z 0). rewrite <- Zle_Qle. lia.
    + apply Qplus_le_compat; [|exact IHle].
      apply Qmult_le_compat_r; [|exact Hp]. rewrite <- Zle_Qle. lia.
Qed.

Lemma recognized_revenue_monotone_witness :
  ((get_recognized_revenue_accrual scenario_store 0 (5 * ms_per_day) no_policy).1
   <= (get_recognized_revenue_accrual scenario_store 0 (31 * ms_per_day)
         no_policy).1)%Q.
Proof.
  apply (recognized_revenue_monotone scenario_store 0 (5 * ms_per_day)
           (31 * ms_per_day) no_policy).
  - intros p Hp. apply list_elem_of_singleton in Hp as ->. cbn. lia.
  - unfold ms_per_day. lia.
Defined.

Lemma empty_window_no_key (ks : list Key.t) (dt_start dt_now : Z)
    (flags : Flags) (p : Plan.t) :
  dt_now <= dt_start ->
  filter (fun k => Plan.id p = Key.tariff_id k
                   /\ in_window (accrual_prev_expiry_ms k p) dt_start dt_now
                      && policy_ok flags k p = true) ks = [].
Proof.
  intros Hnow. induction ks as [|k ks IHk]; [reflexivity|].
  rewrite filter_cons, IHk. rewrite decide_False; [reflexivity|].
  intros [_ Hc]. apply andb_prop in Hc as [Hw _]. unfold in_window in Hw.
  apply andb_prop in Hw as [H1 H2]. apply Z.leb_le in H1. apply Z.ltb_lt in H2.
  lia.
Qed.

(** X14. When the evaluation instant is not after the window start nothing
    is recognized: the total is 0 and there is no per-plan entry. *)
Theorem recognized_revenue_empty_window (st : Store) (dt_start dt_now : Z)
    (flags : Flags) :
  dt_now <= dt_start ->
  get_recognized_revenue_accrual st dt_start dt_now flags = (0%Q, ∅).
Proof.
  intros Hnow. unfold get_recognized_revenue_accrual, accrual_rows.
  assert (grouped_by_plan st (fun k p =>
            in_window (accrual_prev_expiry_ms k p) dt_start dt_now
            && policy_ok flags k p) = []) as ->; [|reflexivity].
  unfold grouped_by_plan. induction (plans st) as [|p ps IH]; [reflexivity|].
  rewrite bind_cons, IH, app_nil_r.
  now rewrite (empty_window_no_key (keys st) dt_start dt_now flags p Hnow).
Qed.

Lemma recognized_revenue_empty_window_witness :
  get_recognized_revenue_accrual scenario_store 0 0 no_policy = (0%Q, ∅).
Proof.
  apply (recognized_revenue_empty_window scenario_store 0 0 no_policy). lia.
Defined.

Example recognized_scenario :
  ((get_recognized_revenue_accrual scenario_store 0 (31 * ms_per_day)
      no_policy).1 == 300)%Q
  /\ ((get_recognized_revenue_accrual scenario_store 0 (5 * ms_per_day)
         no_policy).1 == 0)%Q.
Proof. split; reflexivity. Qed.

(** ** Per-plan snapshots *)

Lemma grouped_by_plan_rows (st : Store) (cond : Key.t -> Plan.t -> bool) :
  grouped_by_plan st cond
  = plans st ≫= fun p =>
      if 0 <? plan_count st cond p then [row_of_plan st cond p] else [].
Proof. reflexivity. Qed.

Lemma elem_of_grouped_by_plan (st : Store) (cond : Key.t -> Plan.t -> bool)
    (row : plan_row) :
  row ∈ grouped_by_plan st cond
  <-> exists p, p ∈ plans st /\ 0 < plan_count st cond p
                /\ row = row_of_plan st cond p.
Proof.
  rewrite grouped_by_plan_rows, list_elem_of_bind. split.
  - intros (p & Hrow & Hp). destruct (Z.ltb_spec 0 (plan_count st cond p));
      [|now apply elem_of_nil in Hrow].
    apply list_elem_of_singleton in Hrow. eauto.
  - intros (p & Hp & Hc & ->). exists p. split; [|exact Hp].
    destruct (Z.ltb_spec 0 (plan_count st cond p)); [|lia].
    now apply list_elem_of_singleton.
Qed.

Lemma grouped_by_plan_names (st : Store) (cond : Key.t -> Plan.t -> bool) :
  (row_name <$> grouped_by_plan st cond) `sublist_of` (Plan.name <$> plans st).
Proof.
  rewrite grouped_by_plan_rows. induction (plans st) as [|p ps IH]; [constructor|].
  rewrite bind_cons, fmap_app, fmap_cons.
  destruct (0 <? plan_count st cond p); cbn [fmap list_fmap app].
  - now apply sublist_skip.
  - now apply sublist_cons.
Qed.

Lemma expiring_fold_rows (rows : list plan_row) (data : gmap string Info.t) :
  foldl (fun data '(_id, name, gcode, count, price, duration) =>
           <[name := info_of_row gcode count price duration]> data) data rows
  = foldl (fun data row => <[row_name row := row_info row]> data) data rows.
Proof.
  revert data.
  induction rows as [|[[[[[_id name] gcode] cnt] price] dur] rows IH];
    intros data; [reflexivity|]. cbn [foldl]. apply IH.
Qed.

Lemma insert_rows_lookup (rows : list plan_row) (data : gmap string Info.t)
    (n : string) (info : Info.t) :
  foldl (fun data row => <[row_name row := row_info row]> data) data rows !! n
    = Some info ->
  data !! n = Some info
  \/ exists row, row ∈ rows /\ row_name row = n /\ info = row_info row.
Proof.
  revert data. induction rows as [|row rows IH]; intros data; cbn [foldl].
  - now left.
  - intros H. apply IH in H as [H|(r & Hr & Hn & Hi)].
    + rewrite lookup_insert in H. case_decide as E.
      * right. exists row. split; [left|]. split; [exact E | congruence].
      * now left.
    + right. exists r. split; [now right | now split].
Qed.

Lemma insert_rows_lookup_fresh (rows : list plan_row)
    (data : gmap string Info.t) (n : string) :
  n ∉ row_name <$> rows ->
  foldl (fun data row => <[row_name row := row_info row]> data) data rows !! n
  = data !! n.
Proof.
  revert data. induction rows as [|r rows IH]; intros data Hn; [reflexivity|].
  rewrite fmap_cons in Hn. apply not_elem_of_cons in Hn as [Hne Hn].
  cbn [foldl]. rewrite (IH _ Hn). now rewrite lookup_insert_ne.
Qed.

Lemma insert_rows_lookup_NoDup (rows : list plan_row)
    (data : gmap string Info.t) (row : plan_row) :
  NoDup (row_name <$> rows) -> row ∈ rows ->
  foldl (fun data row => <[row_name row := row_info row]> data) data rows
    !! row_name row = Some (row_info row).
Proof.
  revert data. induction rows as [|r rows IH]; intros data Hnd Hin.
  - now apply elem_of_nil in Hin.
  - rewrite fmap_cons in Hnd. apply NoDup_cons in Hnd as [Hr Hnd].
    cbn [foldl]. apply elem_of_cons in Hin as [->|Hin]; [|now apply IH].
    rewrite (insert_rows_lookup_fresh _ _ _ Hr). apply lookup_insert_eq.
Qed.

Lemma bucket_plan_range (group_code : option string) (duration_days : option Z) :
  _bucket_plan group_code duration_days ∈ four_buckets.
Proof.
  unfold _bucket_plan, four_buckets. destruct group_code as [g|].
  - case_bool_decide as Hg; [|apply bucket_of_months_range].
    unfold canonical_codes in Hg. apply list_elem_of_In in Hg.
    apply list_elem_of_In. cbn in *. tauto.
  - apply bucket_of_months_range.
Qed.

Lemma expiring_entry (st : Store) (start_ms end_ms : Z) (flags : Flags)
    (name : string) (info : Info.t) :
  get_expiring_by_plan st start_ms end_ms flags !! name = Some info ->
  exists p, p ∈ plans st /\ Plan.name p = name
    /\ info = row_info (row_of_plan st (expiring_cond start_ms end_ms flags) p)
    /\ 0 < plan_count st (expiring_cond start_ms end_ms flags) p.
Proof.
  unfold get_expiring_by_plan. rewrite expiring_fold_rows.
  fold (expiring_cond start_ms end_ms flags).
  change (fun k p => expiring_cond start_ms end_ms flags k p)
    with (expiring_cond start_ms end_ms flags).
  intros H.
  apply insert_rows_lookup in H as [H|(row & Hrow & Hn & ->)];
    [now rewrite lookup_empty in H|].
  apply elem_of_grouped_by_plan in Hrow as (p & Hp & Hc & ->). eauto.
Qed.

Lemma expiring_entry_NoDup (st : Store) (start_ms end_ms : Z) (flags : Flags)
    (p : Plan.t) :
  NoDup (Plan.name <$> plans st) -> p ∈ plans st ->
  0 < plan_count st (expiring_cond start_ms end_ms flags) p ->
  get_expiring_by_plan st start_ms end_ms flags !! Plan.name p
  = Some (row_info (row_of_plan st (expiring_cond start_ms end_ms flags) p)).
Proof.
  intros Hnd Hp Hc. unfold get_expiring_by_plan. rewrite expiring_fold_rows.
  fold (expiring_cond start_ms end_ms flags).
  change (fun k p => expiring_cond start_ms end_ms flags k p)
    with (expiring_cond start_ms end_ms flags).
  change (Plan.name p)
    with (row_name (row_of_plan st (expiring_cond start_ms end_ms flags) p)).
  apply insert_rows_lookup_NoDup.
  - eapply sublist_NoDup; [exact Hnd | apply grouped_by_plan_names].
  - apply elem_of_grouped_by_plan. eauto.
Qed.

(** X15. Every entry of the current-month snapshot describes a plan of that
    name with at least one subscription expiring in the window and passing
    the policy: its count is the number of such subscriptions of that plan,
    its price the plan price (0 when null) and its bucket the classifier's
    bucket of the plan.  When plan names are unique the converse holds:
    every such plan has its entry. *)
Theorem expiring_snapshot_entries (st : Store) (start_ms end_ms : Z)
    (flags : Flags) :
  let snapshot := get_expiring_by_plan st start_ms end_ms flags in
  let cond := expiring_cond start_ms end_ms flags in
  (forall name info, snapshot !! name = Some info ->
     exists p, p ∈ plans st /\ Plan.name p = name
       /\ Info.count info = plan_count st cond p /\ 1 <= Info.count info
       /\ Info.price info = float_or_zero (Plan.price_rub p)
       /\ Info.group_code info = Plan.group_code p
       /\ Info.bucket info
          = _bucket_plan (Plan.group_code p) (Plan.duration_days p)
       /\ Info.bucket info ∈ four_buckets)
  /\ (NoDup (Plan.name <$> plans st) ->
      forall p, p ∈ plans st -> 0 < plan_count st cond p ->
        snapshot !! Plan.name p = Some (row_info (row_of_plan st cond p))).
Proof.
  cbn zeta. split.
  - intros name info H.
    apply expiring_entry in H as (p & Hp & Hn & -> & Hc).
    exists p. cbn. repeat split; try assumption; try lia.
    apply bucket_plan_range.
  - intros Hnd p Hp Hc. now apply expiring_entry_NoDup.
Qed.

Lemma expiring_snapshot_entries_witness :
  get_expiring_by_plan scenario_store 0 (31 * ms_per_day) no_policy !! "A"
  = Some (Info.mk 5 100 (Some 1) None "1m").
Proof.
  apply (proj2 (expiring_snapshot_entries scenario_store 0 (31 * ms_per_day)
                  no_policy)
           ltac:(apply NoDup_singleton)
           (Plan.mk 1 "A" None (Some 30) (Some 100))
           ltac:(apply list_elem_of_here)).
  vm_compute. reflexivity.
Defined.

Lemma float_or_zero_nonneg (price : option Z) :
  0 <= default 0 price -> (0 <= float_or_zero price)%Q.
Proof.
  intros H. unfold float_or_zero. change 0%Q with (inject_Z 0).
  now rewrite <- Zle_Qle.
Qed.

Lemma prev_data_step_ok (d : gmap string Info.t) (row : plan_row) :
  entries_ok d -> 1 <= row.1.1.2 -> 0 <= default 0 row.1.2 ->
  entries_ok (prev_data_step d row).
Proof.
  destruct row as [[[[[_id name] gcode] cnt] price] dur]. cbn [fst snd].
  intros Hd Hc Hp n i. unfold prev_data_step.
  destruct (d !! name) as [e|] eqn:E; rewrite lookup_insert; case_decide.
  - intros [= <-]. cbn. destruct (Hd _ _ E) as [He1 He2].
    split; [lia|].
    destruct (truthy_Z price && _); [now apply float_or_zero_nonneg | exact He2].
  - apply Hd.
  - intros [= <-]. cbn. split; [exact Hc | now apply float_or_zero_nonneg].
  - apply Hd.
Qed.

Lemma grouped_rows_ok (st : Store) (cond : Key.t -> Plan.t -> bool) :
  nonneg_prices st ->
  Forall (fun row : plan_row => 1 <= row.1.1.2 /\ 0 <= default 0 row.1.2)
         (grouped_by_plan st cond).
Proof.
  intros Hprices. apply Forall_forall. intros row Hrow.
  apply elem_of_grouped_by_plan in Hrow as (p & Hp & Hc & ->). cbn.
  split; [lia | now apply Hprices].
Qed.

Lemma prev_data_ok (st : Store) (start_ms end_ms : Z) (flags : Flags) :
  nonneg_prices st -> entries_ok (get_prev_data st start_ms end_ms flags).
Proof.
  intros Hprices. unfold get_prev_data.
  pose proof (grouped_rows_ok st (fun k p =>
    in_window (prev_expiry_ms k p) start_ms end_ms && policy_ok flags k p)
    Hprices) as Hrows.
  assert (entries_ok (∅ : gmap string Info.t)) as H0
    by (intros n i H; now rewrite lookup_empty in H).
  revert H0. generalize (∅ : gmap string Info.t).
  induction Hrows as [|row rows [Hc Hp] _ IH]; intros d Hd; [exact Hd|].
  cbn [foldl]. apply IH. now apply prev_data_step_ok.
Qed.

Lemma expiring_ok (st : Store) (start_ms end_ms : Z) (flags : Flags) :
  nonneg_prices st -> entries_ok (get_expiring_by_plan st start_ms end_ms flags).
Proof.
  intros Hprices n i H.
  apply expiring_entry in H as (p & Hp & _ & -> & Hc). cbn.
  split; [lia|]. now apply float_or_zero_nonneg, Hprices.
Qed.

(** ** Month-start baseline over a store *)

(** X16. For a store without negative plan prices, the current-month
    snapshot, the previous-cycle snapshot and the baseline all consist of
    entries with a count of at least 1 and a non-negative price, so they are
    valid inputs of the forecast, whose results are then non-negative. *)
Theorem snapshots_valid (st : Store) (start_ms end_ms : Z) (flags : Flags)
    (probs : gmap string Q) (global_prob : option Q) :
  nonneg_prices st -> valid_probs probs -> valid_global global_prob ->
  let current := get_expiring_by_plan st start_ms end_ms flags in
  let baseline := get_baseline_expiring_by_plan st start_ms end_ms flags in
  entries_ok current /\ entries_ok (get_prev_data st start_ms end_ms flags)
  /\ entries_ok baseline
  /\ valid_snapshot current /\ valid_snapshot baseline
  /\ (0 <= Forecast.forecast
             (compute_forecast current (get_received st start_ms end_ms flags)
                (Some probs) global_prob))%Q
  /\ (0 <= Forecast.forecast
             (compute_forecast baseline ∅ (Some probs) global_prob))%Q.
Proof.
  intros Hprices Hprobs Hglobal. cbn zeta.
  pose proof (expiring_ok st start_ms end_ms flags Hprices) as Hcur.
  pose proof (prev_data_ok st start_ms end_ms flags Hprices) as Hprev.
  assert (entries_ok (get_baseline_expiring_by_plan st start_ms end_ms flags))
    as Hbase.
  { intros n i. unfold get_baseline_expiring_by_plan.
    rewrite merge_sources_lookup.
    destruct (get_expiring_by_plan st start_ms end_ms flags !! n) as [c|] eqn:Ec,
      (get_prev_data st start_ms end_ms flags !! n) as [p|] eqn:Ep;
      intros [= <-].
    - destruct (Hcur _ _ Ec) as [Hc1 Hc2], (Hprev _ _ Ep) as [Hp1 Hp2].
      cbn. split; [lia|]. now destruct (Qeq_bool (Info.price p) 0).
    - exact (Hcur _ _ Ec).
    - exact (Hprev _ _ Ep). }
  assert (forall m, entries_ok m -> valid_snapshot m) as Hvalid.
  { intros m Hm code info H. destruct (Hm _ _ H). split; [assumption|lia]. }
  split; [exact Hcur|]. split; [exact Hprev|]. split; [exact Hbase|].
  split; [now apply Hvalid|]. split; [now apply Hvalid|].
  split; apply compute_forecast_nonneg; auto.
Qed.

Lemma snapshots_valid_witness :
  (0 <= Forecast.forecast
          (compute_forecast
             (get_baseline_expiring_by_plan scenario_store 0 (31 * ms_per_day)
                no_policy) ∅ (Some ∅) None))%Q.
Proof.
  apply (snapshots_valid scenario_store 0 (31 * ms_per_day) no_policy ∅ None).
  - intros p Hp. apply list_elem_of_singleton in Hp as ->. cbn. lia.
  - apply valid_probs_empty.
  - intros p [=].
Defined.

Lemma prev_data_counts (st : Store) (start_ms end_ms : Z) (flags : Flags)
    (n : string) (i : Info.t) :
  get_prev_data st start_ms end_ms flags !! n = Some i -> 1 <= Info.count i.
Proof.
  unfold get_prev_data.
  assert (Forall (fun row : plan_row => 1 <= row.1.1.2)
            (grouped_by_plan st (fun k p =>
               in_window (prev_expiry_ms k p) start_ms end_ms
               && policy_ok flags k p))) as Hrows.
  { apply Forall_forall. intros row Hrow.
    apply elem_of_grouped_by_plan in Hrow as (p & _ & Hc & ->). cbn. lia. }
  assert (forall n i, (∅ : gmap string Info.t) !! n = Some i -> 1 <= Info.count i)
    as H0 by (intros n' i' H; now rewrite lookup_empty in H).
  revert n i. revert H0. generalize (∅ : gmap string Info.t).
  induction Hrows as [|row rows Hc _ IH]; intros d Hd; [exact Hd|].
  cbn [foldl]. apply IH.
  destruct row as [[[[[_id name] gcode] cnt] price] dur]. cbn [fst snd] in Hc.
  intros n i. unfold prev_data_step.
  destruct (d !! name) as [e|] eqn:E; rewrite lookup_insert; case_decide;
    try apply Hd; intros [= <-]; cbn; [|exact Hc].
  specialize (Hd _ _ E). lia.
Qed.

(** X17. The baseline never loses a plan and never lowers a count: a plan of
    the current-month snapshot is in the baseline with a count at least as
    large, strictly larger exactly when the plan is in the previous-cycle
    snapshot too; and a name is in the baseline exactly when it is in one of
    the two snapshots. *)
Theorem baseline_dominates_current (st : Store) (start_ms end_ms : Z)
    (flags : Flags) (name : string) :
  let current := get_expiring_by_plan st start_ms end_ms flags in
  let prev_data := get_prev_data st start_ms end_ms flags in
  let baseline := get_baseline_expiring_by_plan st start_ms end_ms flags in
  (is_Some (baseline !! name)
   <-> is_Some (current !! name) \/ is_Some (prev_data !! name))
  /\ forall c, current !! name = Some c ->
       exists m, baseline !! name = Some m
         /\ Info.count c <= Info.count m
         /\ (Info.count c < Info.count m <-> is_Some (prev_data !! name)).
Proof.
  cbn zeta. unfold get_baseline_expiring_by_plan. rewrite merge_sources_lookup.
  pose proof (prev_data_counts st start_ms end_ms flags name) as Hprev.
  destruct (get_expiring_by_plan st start_ms end_ms flags !! name) as [c|],
    (get_prev_data st start_ms end_ms flags !! name) as [p|]; split.
  - split; eauto.
  - intros c' [= <-]. eexists. split; [reflexivity|]. cbn.
    specialize (Hprev p eq_refl). split; [lia|]. split; eauto. intros _. lia.
  - split; eauto.
  - intros c' [= <-]. exists c. split; [reflexivity|]. split; [lia|].
    split; [lia|]. intros [x [=]].
  - split; eauto.
  - intros c' [=].
  - split; [intros [x [=]] | intros [[x [=]]|[x [=]]]].
  - intros c' [=].
Qed.

Lemma baseline_dominates_current_witness :
  exists m, get_baseline_expiring_by_plan scenario_store 0 (31 * ms_per_day)
              no_policy !! "A" = Some m
            /\ 5 < Info.count m.
Proof.
  destruct (proj2 (baseline_dominates_current scenario_store 0
                     (31 * ms_per_day) no_policy "A")
              (Info.mk 5 100 (Some 1) None "1m") eq_refl)
    as (m & Hm & _ & Hlt).
  exists m. split; [exact Hm|]. apply Hlt. vm_compute. eauto.
Defined.

Lemma prev_data_step_fresh (d : gmap string Info.t) (row : plan_row) :
  d !! row_name row = None ->
  prev_data_step d row = <[row_name row := row_info row]> d.
Proof.
  destruct row as [[[[[_id name] gcode] cnt] price] dur].
  unfold prev_data_step, row_name, row_info. cbn [fst snd]. now intros ->.
Qed.

Lemma prev_fold_is_insert (rows : list plan_row) (d : gmap string Info.t) :
  NoDup (row_name <$> rows) ->
  (forall row, row ∈ rows -> d !! row_name row = None) ->
  foldl prev_data_step d rows
  = foldl (fun data row => <[row_name row := row_info row]> data) d rows.
Proof.
  revert d. induction rows as [|r rows IH]; intros d Hnd Hd; [reflexivity|].
  rewrite fmap_cons in Hnd. apply NoDup_cons in Hnd as [Hr Hnd].
  cbn [foldl]. rewrite prev_data_step_fresh by (apply Hd; left).
  apply IH; [exact Hnd|]. intros row Hrow.
  rewrite lookup_insert_ne; [apply Hd; now right|].
  intros E. apply Hr. rewrite E. apply list_elem_of_fmap. eauto.
Qed.

Lemma prev_entry_NoDup (st : Store) (start_ms end_ms : Z) (flags : Flags)
    (p : Plan.t) :
  NoDup (Plan.name <$> plans st) -> p ∈ plans st ->
  0 < plan_count st (prev_cycle_cond start_ms end_ms flags) p ->
  get_prev_data st start_ms end_ms flags !! Plan.name p
  = Some (row_info (row_of_plan st (prev_cycle_cond start_ms end_ms flags) p)).
Proof.
  intros Hnd Hp Hc. unfold get_prev_data.
  fold (prev_cycle_cond start_ms end_ms flags).
  change (fun k p => prev_cycle_cond start_ms end_ms flags k p)
    with (prev_cycle_cond start_ms end_ms flags).
  assert (NoDup (row_name <$> grouped_by_plan st
                   (prev_cycle_cond start_ms end_ms flags))) as Hrows
    by (eapply sublist_NoDup; [exact Hnd | apply grouped_by_plan_names]).
  rewrite prev_fold_is_insert;
    [|exact Hrows | intros; apply lookup_empty].
  change (Plan.name p)
    with (row_name (row_of_plan st (prev_cycle_cond start_ms end_ms flags) p)).
  apply insert_rows_lookup_NoDup; [exact Hrows|].
  apply elem_of_grouped_by_plan. eauto.
Qed.

Lemma plan_count_ext (st : Store) (cond1 cond2 : Key.t -> Plan.t -> bool)
    (p : Plan.t) :
  (forall k, cond1 k p = cond2 k p) ->
  plan_count st cond1 p = plan_count st cond2 p.
Proof.
  intros Hext. unfold plan_count. f_equal. f_equal.
  apply list_filter_iff. intros k. now rewrite Hext.
Qed.

(** X18. The baseline counts twice every currently expiring subscription of
    a plan without a stored duration (null or 0): its implied previous-cycle
    expiry is its expiry, so it is in both sources of the merge.  With
    unique plan names, the baseline count of such a plan is exactly twice
    its current-month count. *)
Theorem baseline_double_counts_zero_duration (st : Store)
    (start_ms end_ms : Z) (flags : Flags) (p : Plan.t) (c : Info.t) :
  NoDup (Plan.name <$> plans st) -> p ∈ plans st ->
  default 0 (Plan.duration_days p) = 0 ->
  get_expiring_by_plan st start_ms end_ms flags !! Plan.name p = Some c ->
  exists m,
    get_baseline_expiring_by_plan st start_ms end_ms flags !! Plan.name p
      = Some m
    /\ Info.count m = 2 * Info.count c.
Proof.
  intros Hnd Hp Hdur Hc.
  destruct (expiring_entry _ _ _ _ _ _ Hc) as (q & Hq & Hname & -> & Hcount).
  assert (q = p) as ->.
  { apply list_elem_of_lookup in Hq as [i Hi].
    apply list_elem_of_lookup in Hp as [j Hj].
    assert (i = j) as ->; [|congruence].
    apply (NoDup_lookup (Plan.name <$> plans st) i j (Plan.name p) Hnd);
      rewrite list_lookup_fmap; [rewrite Hi | rewrite Hj]; cbn; congruence. }
  assert (plan_count st (prev_cycle_cond start_ms end_ms flags) p
          = plan_count st (expiring_cond start_ms end_ms flags) p) as Heq.
  { apply plan_count_ext. intros k.
    unfold prev_cycle_cond, expiring_cond, prev_expiry_ms.
    rewrite Hdur. now rewrite Z.mul_0_l, Z.sub_0_r. }
  unfold get_baseline_expiring_by_plan. rewrite merge_sources_lookup, Hc.
  rewrite (prev_entry_NoDup st start_ms end_ms flags p Hnd Hp)
    by (rewrite Heq; exact Hcount).
  eexists. split; [reflexivity|]. cbn. rewrite Heq. lia.
Qed.

Lemma baseline_double_counts_zero_duration_witness :
  let st := {| keys := [Key.mk 1 "c" 1 (10 * ms_per_day) (Some false) 0];
               plans := [Plan.mk 1 "T" None None (Some 50)];
               payments := [] |} in
  exists m, get_baseline_expiring_by_plan st 0 (31 * ms_per_day) no_policy !! "T"
              = Some m
            /\ Info.count m = 2.
Proof.
  intros st.
  destruct (baseline_double_counts_zero_duration st 0 (31 * ms_per_day)
              no_policy (Plan.mk 1 "T" None None (Some 50))
              (Info.mk 1 50 None None "other")
              ltac:(apply NoDup_singleton) ltac:(apply list_elem_of_here)
              eq_refl ltac:(reflexivity)) as (m & Hm & Hcount).
  exists m. split; [exact Hm | exact Hcount].
Defined.

(** ** Predicted churn *)

Lemma sum_counts_bump (m : gmap string Z) (b : string) :
  sum_counts (<[b := default 0 (m !! b) + 1]> m) = sum_counts m + 1.
Proof.
  unfold sum_counts. destruct (m !! b) as [v|] eqn:E; cbn [default from_option id].
  - rewrite <- (insert_delete_eq m b (v + 1)).
    rewrite map_fold_insert_L; [|intros; lia|apply lookup_delete_eq].
    rewrite (map_fold_delete_L _ 0 b v m); [lia|intros; lia|exact E].
  - rewrite map_fold_insert_L; [lia|intros; lia|exact E].
Qed.

Lemma classify_step_counts (end_ms : Z) (paid : gset Z) (t : Tally)
    (c : Cand.t) :
  sum_counts (bucket_counts t) = not_renewed t ->
  (forall b v, bucket_counts t !! b = Some v -> 1 <= v) ->
  let t' := classify_step end_ms paid t c in
  sum_counts (bucket_counts t') = not_renewed t'
  /\ (forall b v, bucket_counts t' !! b = Some v -> 1 <= v).
Proof.
  intros Hsum Hpos. cbn zeta.
  assert (let t' := count_not_renewed t c in
          sum_counts (bucket_counts t') = not_renewed t'
          /\ (forall b v, bucket_counts t' !! b = Some v -> 1 <= v)) as Hnot.
  { cbn. split; [rewrite sum_counts_bump; lia|].
    intros b v. rewrite lookup_insert. case_decide; [|apply Hpos].
    intros [= <-].
    destruct (bucket_counts t !! _) as [v0|] eqn:E; cbn; [|lia].
    specialize (Hpos _ _ E). lia. }
  unfold classify_step. destruct (Cand.expiry_ms c) as [e|].
  - destruct (end_ms <=? e); [now split | exact Hnot].
  - case_bool_decide; [now split | exact Hnot].
Qed.

Lemma classify_fold_counts (end_ms : Z) (paid : gset Z)
    (cand_rows : list Cand.t) (t : Tally) :
  sum_counts (bucket_counts t) = not_renewed t ->
  (forall b v, bucket_counts t !! b = Some v -> 1 <= v) ->
  let t' := foldl (classify_step end_ms paid) t cand_rows in
  sum_counts (bucket_counts t') = not_renewed t'
  /\ (forall b v, bucket_counts t' !! b = Some v -> 1 <= v).
Proof.
  cbn zeta. revert t. induction cand_rows as [|c l IH]; intros t Hs Hp;
    [now split|].
  cbn [foldl]. destruct (classify_step_counts end_ms paid t c Hs Hp).
  now apply IH.
Qed.

Lemma classify_counts (end_ms : Z) (paid : gset Z) (cand_rows : list Cand.t) :
  let t := classify end_ms paid cand_rows in
  sum_counts (bucket_counts t) = not_renewed t
  /\ (forall b v, bucket_counts t !! b = Some v -> 1 <= v).
Proof.
  apply classify_fold_counts; [reflexivity|].
  intros b v H. cbn in H. now rewrite lookup_empty in H.
Qed.

Lemma sum_counts_list (m : gmap string Z) :
  sum_counts m = foldr (fun bv s => bv.2 + s) 0 (map_to_list m).
Proof.
  unfold sum_counts. rewrite map_fold_foldr.
  induction (map_to_list m) as [|[b v] l IH]; [reflexivity|].
  cbn [foldr uncurry snd]. now rewrite IH.
Qed.

Lemma churn_list (p_map : gmap string Q) (default_p : Q) (m : gmap string Z) :
  map_fold (churn_step p_map default_p) 0%Q m
  = foldr (fun bv s => churn_step p_map default_p bv.1 bv.2 s) 0%Q
          (map_to_list m).
Proof.
  rewrite map_fold_foldr.
  induction (map_to_list m) as [|[b v] l IH]; [reflexivity|].
  cbn [foldr uncurry fst snd]. now rewrite IH.
Qed.

Lemma churn_list_bounds (p_map : gmap string Q) (default_p : Q)
    (l : list (string * Z)) :
  valid_probs p_map -> (0 <= default_p <= 1)%Q ->
  Forall (fun bv => 0 <= bv.2) l ->
  (0 <= foldr (fun bv s => churn_step p_map default_p bv.1 bv.2 s) 0 l)%Q
  /\ (foldr (fun bv s => churn_step p_map default_p bv.1 bv.2 s) 0 l
      <= inject_Z (foldr (fun bv s => (bv.2 + s)%Z) 0%Z l))%Q.
Proof.
  intros Hp Hd. induction 1 as [|[b v] l Hv _ IH]; [split; apply Qle_refl|].
  cbn [foldr fst snd] in *. destruct IH as [IH0 IH1]. unfold churn_step.
  set (p := default default_p (p_map !! b)).
  assert (0 <= p <= 1)%Q as [Hp0 Hp1].
  { unfold p. destruct (p_map !! b) as [x|] eqn:E; [exact (Hp _ _ E) | exact Hd]. }
  assert (0 <= inject_Z v)%Q as Hv0
    by (change 0%Q with (inject_Z 0); now rewrite <- Zle_Qle).
  assert (0 <= (1 - p) * inject_Z v)%Q as Ht0.
  { apply Qmult_le_0_compat; [|exact Hv0].
    unfold Qminus. rewrite <- (Qplus_opp_r p).
    apply Qplus_le_compat; [exact Hp1 | apply Qle_refl]. }
  assert ((1 - p) * inject_Z v <= inject_Z v)%Q as Ht1.
  { rewrite <- (Qmult_1_l (inject_Z v)) at 2.
    apply Qmult_le_compat_r; [|exact Hv0].
    unfold Qminus. rewrite <- (Qplus_0_r 1) at 2.
    apply Qplus_le_compat; [apply Qle_refl|].
    rewrite <- (Qopp_opp 0). apply Qopp_le_compat. exact Hp0. }
  split.
  - rewrite <- (Qplus_0_l 0) at 1. now apply Qplus_le_compat.
  - rewrite inject_Z_plus, Qplus_comm. now apply Qplus_le_compat.
Qed.

Lemma churn_list_no_override (default_p : Q) (l : list (string * Z)) :
  (foldr (fun bv s => churn_step ∅ default_p bv.1 bv.2 s) 0 l
   == (1 - default_p) * inject_Z (foldr (fun bv s => (bv.2 + s)%Z) 0%Z l))%Q.
Proof.
  induction l as [|[b v] l IH]; cbn [foldr fst snd].
  - ring.
  - unfold churn_step. rewrite lookup_empty. cbn [default from_option id].
    rewrite IH, inject_Z_plus. ring.
Qed.

Lemma retention_churn_unfold (st : Store) (dt_start dt_end : Z) (flags : Flags)
    (probs : option (gmap string Q)) (global_prob : option Q) :
  let r := _calc_retention_churn st dt_start dt_end flags probs global_prob in
  let t := classify dt_end (paid_in_month st dt_start dt_end)
             (merged_candidates st dt_start dt_end flags) in
  let default_p := match global_prob with Some g => g | None => 1%Q end in
  (merged_candidates st dt_start dt_end flags = []
   /\ Retention.predicted_churn r = 0%Q /\ Retention.not_renewed_yet r = 0)
  \/ (Retention.predicted_churn r
      = map_fold (churn_step (dict_or_empty probs) default_p) 0%Q
                 (bucket_counts t)
      /\ Retention.not_renewed_yet r = not_renewed t).
Proof.
  cbn zeta. unfold _calc_retention_churn, retention_of.
  destruct (merged_candidates st dt_start dt_end flags) as [|c l] eqn:E.
  - left. now repeat split.
  - right. rewrite <- E.
    destruct (Z.eqb_spec (Z.of_nat (length (merged_candidates st dt_start dt_end flags))) 0)
      as [H0|_]; [rewrite E in H0; discriminate H0|]. now split.
Qed.

(** X19. With probabilities in [[0, 1]] the predicted churn lies between 0
    and the number of candidates that have not renewed yet. *)
Theorem predicted_churn_bounds (st : Store) (dt_start dt_end : Z)
    (flags : Flags) (probs : option (gmap string Q)) (global_prob : option Q) :
  valid_probs (dict_or_empty probs) -> valid_global global_prob ->
  let r := _calc_retention_churn st dt_start dt_end flags probs global_prob in
  (0 <= Retention.predicted_churn r)%Q
  /\ (Retention.predicted_churn r <= inject_Z (Retention.not_renewed_yet r))%Q
  /\ 0 <= Retention.not_renewed_yet r.
Proof.
  intros Hp Hg. cbn zeta.
  destruct (retention_churn_unfold st dt_start dt_end flags probs global_prob)
    as [(_ & -> & ->)|[-> ->]].
  - split; [apply Qle_refl|]. split; [apply Qle_refl|lia].
  - destruct (classify_counts dt_end (paid_in_month st dt_start dt_end)
                (merged_candidates st dt_start dt_end flags)) as [Hsum Hpos].
    destruct (classify_total dt_end (paid_in_month st dt_start dt_end)
                (merged_candidates st dt_start dt_end flags)) as (_ & _ & Hnn).
    rewrite churn_list, <- Hsum, sum_counts_list.
    split; [|split; [|rewrite <- sum_counts_list, Hsum; exact Hnn]];
      apply churn_list_bounds; try assumption.
    all: try (destruct global_prob as [g|]; [exact (Hg g eq_refl) | split; discriminate]).
    all: apply Forall_forall; intros [b v] Hbv; apply elem_of_map_to_list in Hbv;
      cbn; specialize (Hpos _ _ Hbv); lia.
Qed.

Lemma predicted_churn_bounds_witness :
  let r := _calc_retention_churn retention_store 0 (31 * ms_per_day) no_policy
             None (Some (1 # 4)) in
  (Retention.predicted_churn r <= inject_Z (Retention.not_renewed_yet r))%Q.
Proof.
  apply (predicted_churn_bounds retention_store 0 (31 * ms_per_day) no_policy
           None (Some (1 # 4))).
  - apply valid_probs_empty.
  - intros p [= <-]. split; discriminate.
Defined.

(** X20. Without per-bucket probabilities the predicted churn is
    [(1 - g)] times the number of candidates that have not renewed yet,
    where [g] is the global probability, 1 when none is given: with no
    probability source at all the predicted churn is 0 however many
    candidates have not renewed. *)
Theorem predicted_churn_global_only (st : Store) (dt_start dt_end : Z)
    (flags : Flags) (probs : option (gmap string Q)) (global_prob : option Q) :
  dict_or_empty probs = ∅ ->
  let r := _calc_retention_churn st dt_start dt_end flags probs global_prob in
  let g := match global_prob with Some g => g | None => 1%Q end in
  (Retention.predicted_churn r
   == (1 - g) * inject_Z (Retention.not_renewed_yet r))%Q
  /\ (global_prob = None -> (Retention.predicted_churn r == 0)%Q).
Proof.
  intros Hempty. cbn zeta.
  assert (Retention.predicted_churn
            (_calc_retention_churn st dt_start dt_end flags probs global_prob)
          == (1 - match global_prob with Some g => g | None => 1 end)
             * inject_Z (Retention.not_renewed_yet
                 (_calc_retention_churn st dt_start dt_end flags probs
                    global_prob)))%Q as Hmain.
  { destruct (retention_churn_unfold st dt_start dt_end flags probs global_prob)
      as [(_ & -> & ->)|[-> ->]]; [ring|].
    destruct (classify_counts dt_end (paid_in_month st dt_start dt_end)
                (merged_candidates st dt_start dt_end flags)) as [Hsum _].
    rewrite Hempty, churn_list, <- Hsum, sum_counts_list.
    apply churn_list_no_override. }
  split; [exact Hmain|]. intros ->. rewrite Hmain. ring.
Qed.

Lemma predicted_churn_global_only_witness :
  let r := _calc_retention_churn retention_store 0 (31 * ms_per_day) no_policy
             None None in
  Retention.not_renewed_yet r = 2 /\ (Retention.predicted_churn r == 0)%Q.
Proof.
  split; [reflexivity|].
  exact (proj2 (predicted_churn_global_only retention_store 0
                  (31 * ms_per_day) no_policy None None eq_refl) eq_refl).
Defined.

(** ** Forecast against the full value of a snapshot *)

Lemma Qmult_shrink (a p : Q) : (0 <= a)%Q -> (p <= 1)%Q -> (a * p <= a)%Q.
Proof.
  intros Ha Hp. apply Qle_trans with (1 * a)%Q.
  - rewrite Qmult_comm. now apply Qmult_le_compat_r.
  - rewrite Qmult_1_l. apply Qle_refl.
Qed.

Lemma py_or_le_1 (x : option Q) (rest : Q) :
  (forall v, x = Some v -> (v <= 1)%Q) -> (rest <= 1)%Q -> (py_or x rest <= 1)%Q.
Proof.
  intros Hx Hr. unfold py_or. destruct x as [v|]; [|exact Hr].
  destruct (Qeq_bool v 0); [exact Hr | now apply Hx].
Qed.

Lemma resolve_prob_le_1 (overrides : gmap string Q) (global_prob : option Q)
    (code : string) (info : Info.t) :
  valid_probs overrides -> valid_global global_prob ->
  (resolve_prob overrides global_prob code info <= 1)%Q.
Proof.
  intros Ho Hg. unfold resolve_prob.
  apply py_or_le_1; [intros v Hv; now apply (Ho _ _ Hv)|].
  apply py_or_le_1.
  { intros v Hv. unfold get_opt in Hv. destruct (Info.group_code info) as [g|];
      [|discriminate]. now apply (Ho _ _ Hv). }
  apply py_or_le_1; [intros v Hv; now apply (Ho _ _ Hv)|].
  destruct global_prob as [g|]; [now apply (Hg g)|apply Qle_refl].
Qed.

Lemma resolve_prob_no_override (global_prob : option Q) (code : string)
    (info : Info.t) :
  resolve_prob ∅ global_prob code info
  = match global_prob with Some g => g | None => 1%Q end.
Proof.
  unfold resolve_prob, get_opt. rewrite !lookup_empty.
  destruct (Info.group_code info); cbn; now rewrite ?lookup_empty.
Qed.

(** X21. For valid inputs the forecast never exceeds the full value of the
    snapshot (every subscription renewing at its plan price).  Without
    overrides it is the full value times the global probability, and the
    full value itself when no global probability is given either. *)
Theorem forecast_against_full_value (expiring : gmap string Info.t)
    (received_dict : gmap string Q) (probs : gmap string Q)
    (global_prob : option Q) :
  valid_snapshot expiring -> valid_probs probs -> valid_global global_prob ->
  (Forecast.forecast
     (compute_forecast expiring received_dict (Some probs) global_prob)
   <= snapshot_value expiring)%Q
  /\ (Forecast.forecast
        (compute_forecast expiring received_dict None global_prob)
      == snapshot_value expiring
         * match global_prob with Some g => g | None => 1 end)%Q.
Proof.
  intros He Hp Hg. split.
  - rewrite compute_forecast_sum. unfold snapshot_value.
    cbn [dict_or_empty default from_option id].
    assert (Forall (fun ci => valid_info ci.2) (map_to_list expiring)) as Hall.
    { apply Forall_forall. intros [code info] Hin.
      apply elem_of_map_to_list in Hin. now apply (He code). }
    induction Hall as [|[code info] l [Hprice Hcount] _ IH]; [apply Qle_refl|].
    cbn [foldr snd]. apply Qplus_le_compat; [exact IH|].
    unfold expected_of. apply Qmult_shrink; [|now apply resolve_prob_le_1].
    apply Qmult_le_0_compat; [exact Hprice|].
    change 0%Q with (inject_Z 0). now rewrite <- Zle_Qle.
  - rewrite compute_forecast_sum. unfold snapshot_value.
    cbn [dict_or_empty default from_option id].
    induction (map_to_list expiring) as [|[code info] l IH]; [cbn; ring|].
    cbn [foldr snd]. rewrite IH. unfold expected_of.
    rewrite resolve_prob_no_override. ring.
Qed.

Lemma forecast_against_full_value_witness :
  let expiring := {["A" := Info.mk 2 100 (Some 1) None "1m"]} in
  (Forecast.forecast
     (compute_forecast expiring ∅ (Some {["1m" := (1 # 2)%Q]}) None)
   <= snapshot_value expiring)%Q.
Proof.
  intros expiring.
  apply (forecast_against_full_value expiring ∅ {["1m" := (1 # 2)%Q]} None).
  - apply valid_snapshot_singleton. split; discriminate.
  - intros k p Hk. apply lookup_singleton_Some in Hk as [_ <-].
    split; discriminate.
  - intros p [=].
Defined.

Lemma forecast_no_override (expiring : gmap string Info.t)
    (received_dict : gmap string Q) (probs : option (gmap string Q))
    (global_prob : option Q) :
  dict_or_empty probs = ∅ ->
  (Forecast.forecast (compute_forecast expiring received_dict probs global_prob)
   == snapshot_value expiring
      * match global_prob with Some g => g | None => 1 end)%Q.
Proof.
  intros Hempty. rewrite compute_forecast_sum, Hempty. unfold snapshot_value.
  induction (map_to_list expiring) as [|[code info] l IH]; [cbn; ring|].
  cbn [foldr snd]. rewrite IH. unfold expected_of.
  rewrite resolve_prob_no_override. ring.
Qed.

(** ** The summary figures *)

(** X22. A configured global probability with no overrides makes the
    learned estimate irrelevant: the live forecast and the plan baseline are
    the full values of their snapshots times that probability, whatever the
    estimator returned. *)
Theorem global_probability_replaces_learned (settings : Settings)
    (expiring baseline_expiring : gmap string Info.t)
    (received learned : gmap string Q) (recognized_total g : Q) :
  size (dict_or_empty (PLAN_PROB_OVERRIDES settings)) = 0%nat ->
  RENEWAL_PROBABILITY settings = Some g ->
  let s := render_summary_data settings expiring baseline_expiring received
             learned recognized_total in
  (Forecast.forecast (Summary.data s) == snapshot_value expiring * g)%Q
  /\ (Summary.plan_baseline s == snapshot_value baseline_expiring * g)%Q.
Proof.
  intros Hsize Hg. cbn zeta. rewrite render_summary_data_unfold.
  cbn [Summary.data Summary.plan_baseline].
  unfold probability_source. rewrite Hg. cbn [fst snd].
  apply map_size_empty_inv in Hsize.
  split; now rewrite forecast_no_override by (cbn; exact Hsize).
Qed.

Lemma global_probability_replaces_learned_witness :
  let settings := {| PLAN_PROB_OVERRIDES := None;
                     RENEWAL_PROBABILITY := Some (1 # 2);
                     COMPLETION_MODE := None |} in
  let expiring := {["A" := Info.mk 2 100 (Some 1) None "1m"]} in
  (Forecast.forecast
     (Summary.data (render_summary_data settings expiring expiring ∅
                      {["1m" := (9 # 10)%Q]} 0))
   == 100)%Q.
Proof.
  intros settings expiring.
  rewrite (proj1 (global_probability_replaces_learned settings expiring
                    expiring ∅ {["1m" := (9 # 10)%Q]} 0 (1 # 2)
                    ltac:(reflexivity) eq_refl)).
  reflexivity.
Defined.

Lemma Qlt_bool_iff (a b : Q) : Qlt_bool a b = true <-> (a < b)%Q.
Proof.
  unfold Qlt_bool. split.
  - intros H. apply Qnot_le_lt. intros Hle. apply Qle_bool_iff in Hle.
    rewrite Hle in H. discriminate.
  - intros H. destruct (Qle_bool b a) eqn:E; [|reflexivity].
    apply Qle_bool_iff in E. exfalso. apply (Qlt_irrefl a).
    now apply Qlt_le_trans with b.
Qed.

(** X23. The completion percentage is unknown exactly when the plan baseline
    is not positive, in every mode, and [plan_gap] is then 0. *)
Theorem completion_unknown_iff (settings : Settings)
    (expiring baseline_expiring : gmap string Info.t)
    (received learned : gmap string Q) (recognized_total : Q) :
  let s := render_summary_data settings expiring baseline_expiring received
             learned recognized_total in
  (Summary.plan_completion_pct s = None <-> (Summary.plan_baseline s <= 0)%Q)
  /\ ((Summary.plan_baseline s <= 0)%Q -> Summary.plan_gap s = 0%Q).
Proof.
  cbn zeta. rewrite render_summary_data_unfold.
  cbn [Summary.plan_completion_pct Summary.plan_baseline Summary.plan_gap].
  set (plan_sum := Forecast.forecast _).
  unfold completion_pct, gap_of.
  destruct (Qlt_bool 0 plan_sum) eqn:E.
  - apply Qlt_bool_iff in E.
    assert (~ (plan_sum <= 0)%Q) as Hn
      by (intros H; apply (Qlt_irrefl 0); now apply Qlt_le_trans with plan_sum).
    split; [|intros H; contradiction].
    split; [|intros H; contradiction].
    repeat case_bool_decide; discriminate.
  - assert (plan_sum <= 0)%Q as Hle.
    { apply Qnot_lt_le. intros H. apply Qlt_bool_iff in H. congruence. }
    split; [now split|reflexivity].
Qed.

Lemma completion_unknown_iff_witness :
  let settings := {| PLAN_PROB_OVERRIDES := None; RENEWAL_PROBABILITY := None;
                     COMPLETION_MODE := Some "accrual" |} in
  Summary.plan_gap (render_summary_data settings ∅ ∅ {["net" := 50%Q]} ∅ 10)
  = 0%Q.
Proof.
  intros settings.
  apply (proj2 (completion_unknown_iff settings ∅ ∅ {["net" := 50%Q]} ∅ 10)).
  vm_compute. discriminate.
Defined.

(** X24. In cash mode (any mode other than [accrual] and
    [plan_vs_forecast], or none configured) with a positive baseline the
    percentage is [received / baseline * 100], not clamped, and
    [plan_gap] is 0 exactly when that percentage has reached 100. *)
Theorem cash_mode_completion (settings : Settings)
    (expiring baseline_expiring : gmap string Info.t)
    (received learned : gmap string Q) (recognized_total : Q) :
  let s := render_summary_data settings expiring baseline_expiring received
             learned recognized_total in
  let mode := default "cash" (COMPLETION_MODE settings) in
  mode <> "plan_vs_forecast" -> mode <> "accrual" ->
  (0 < Summary.plan_baseline s)%Q ->
  exists pct,
    Summary.plan_completion_pct s = Some pct
    /\ (pct == Forecast.received (Summary.data s) / Summary.plan_baseline s
               * 100)%Q
    /\ Summary.plan_gap s
       = py_max 0 (Summary.plan_baseline s - Forecast.received (Summary.data s))
    /\ ((Summary.plan_gap s == 0)%Q <-> (100 <= pct)%Q).
Proof.
  cbn zeta. rewrite render_summary_data_unfold.
  cbn [Summary.plan_completion_pct Summary.plan_baseline Summary.plan_gap
       Summary.data].
  set (plan_sum := Forecast.forecast (compute_forecast baseline_expiring _ _ _)).
  set (fact := Forecast.received _).
  intros Hm1 Hm2 Hpos. unfold completion_pct, gap_of.
  rewrite (proj2 (Qlt_bool_iff 0 plan_sum) Hpos).
  rewrite !bool_decide_eq_false_2 by assumption.
  eexists. split; [reflexivity|]. split; [reflexivity|]. split; [reflexivity|].
  assert ((100 <= fact / plan_sum * 100)%Q <-> (plan_sum <= fact)%Q) as Hpct.
  { assert (~ plan_sum == 0)%Q as Hnz
      by (intros E0; rewrite E0 in Hpos; now apply Qlt_irrefl in Hpos).
    rewrite <- (Qmult_le_r plan_sum fact (100 / plan_sum)).
    - assert (plan_sum * (100 / plan_sum) == 100)%Q as -> by (now field).
      assert (fact * (100 / plan_sum) == fact / plan_sum * 100)%Q as ->
        by (now field).
      reflexivity.
    - apply Qlt_shift_div_l; [exact Hpos|]. now rewrite Qmult_0_l. }
  rewrite Hpct.
  destruct (py_max_spec 0 (plan_sum - fact)) as [[Hle ->]|[Hlt ->]].
  - split; [intros _|reflexivity].
    apply (Qplus_le_compat _ _ fact fact) in Hle; [|apply Qle_refl].
    ring_simplify in Hle. exact Hle.
  - split; intros H.
    + rewrite H in Hlt. now apply Qlt_irrefl in Hlt.
    + exfalso. apply (Qlt_irrefl 0). eapply Qlt_le_trans; [exact Hlt|].
      apply (Qplus_le_compat _ _ (- fact) (- fact)) in H; [|apply Qle_refl].
      ring_simplify in H. ring_simplify. exact H.
Qed.

Lemma cash_mode_completion_witness :
  let settings := {| PLAN_PROB_OVERRIDES := None; RENEWAL_PROBABILITY := None;
                     COMPLETION_MODE := None |} in
  let plan := {["A" := Info.mk 2 100 (Some 1) None "1m"]} in
  exists pct,
    Summary.plan_completion_pct
      (render_summary_data settings plan plan {["net" := 300%Q]} ∅ 0) = Some pct
    /\ (pct == 150)%Q.
Proof.
  intros settings plan.
  destruct (cash_mode_completion settings plan plan {["net" := 300%Q]} ∅ 0
              ltac:(discriminate) ltac:(discriminate)
              ltac:(vm_compute; reflexivity))
    as (pct & Hpct & Heq & _).
  exists pct. split; [exact Hpct|]. rewrite Heq. reflexivity.
Defined.

(** ** Blank-line squeezing *)

Lemma squeeze_fold (parts : list string) (out : list string) (last_blank : bool) :
  (foldl squeeze_step (out, last_blank) parts).1
  = (out ++ squeeze_from last_blank parts)%list.
Proof.
  revert out last_blank. induction parts as [|p rest IH]; intros out lb.
  - cbn. now rewrite app_nil_r.
  - cbn [foldl squeeze_from]. unfold squeeze_step at 2. cbn [fst snd].
    destruct (String.eqb p ""); [destruct lb|]; rewrite IH;
      rewrite <- ?(assoc_L (++)); reflexivity.
Qed.

Lemma squeeze_from_head (lb : bool) (parts : list string) :
  lb = true -> head (squeeze_from lb parts) <> Some "".
Proof.
  intros ->. induction parts as [|p rest IH]; [discriminate|].
  cbn [squeeze_from]. destruct (String.eqb_spec p ""); [exact IH|].
  cbn. congruence.
Qed.

Lemma squeeze_from_no_adjacent (lb : bool) (parts : list string) :
  no_adjacent_blanks (squeeze_from lb parts).
Proof.
  revert lb. induction parts as [|p rest IH]; intros lb; [exact I|].
  cbn [squeeze_from].
  destruct (String.eqb_spec p "") as [->|Hne].
  - destruct lb; [apply IH|].
    pose proof (squeeze_from_head true rest eq_refl) as Hh.
    specialize (IH true). destruct (squeeze_from true rest) as [|b l]; [exact I|].
    split; [|exact IH]. intros [_ ->]. now apply Hh.
  - specialize (IH false). destruct (squeeze_from false rest) as [|b l]; [exact I|].
    split; [|exact IH]. intros [? _]. contradiction.
Qed.

Lemma squeeze_from_keeps_text (lb : bool) (parts : list string) :
  filter (fun p => p <> "") (squeeze_from lb parts)
  = filter (fun p => p <> "") parts.
Proof.
  revert lb. induction parts as [|p rest IH]; intros lb; [reflexivity|].
  cbn [squeeze_from]. destruct (String.eqb_spec p "") as [->|Hne].
  - rewrite (filter_cons_False _ "" rest) by (intros H; now apply H).
    destruct lb; [apply IH|].
    rewrite filter_cons_False by (intros H; now apply H). apply IH.
  - rewrite !filter_cons_True by exact Hne. now rewrite IH.
Qed.

(** X25. The squeezing loop of [render_summary] leaves no two blank lines
    next to each other, keeps every non-blank line in order, and changes
    nothing when run on its own output. *)
Theorem squeeze_blanks_spec (parts : list string) :
  no_adjacent_blanks (squeeze_blanks parts)
  /\ filter (fun p => p <> "") (squeeze_blanks parts)
     = filter (fun p => p <> "") parts
  /\ squeeze_blanks (squeeze_blanks parts) = squeeze_blanks parts.
Proof.
  unfold squeeze_blanks. rewrite !squeeze_fold. cbn [app].
  split; [apply squeeze_from_no_adjacent|].
  split; [apply squeeze_from_keeps_text|].
  pose proof (squeeze_from_no_adjacent false parts) as Hna.
  assert (forall l lb, no_adjacent_blanks l ->
            (lb = true -> head l <> Some "") -> squeeze_from lb l = l) as Hid.
  { clear. induction l as [|a l IH]; intros lb Hna Hlb; [reflexivity|].
    cbn [squeeze_from]. destruct (String.eqb_spec a "") as [->|Hne].
    - destruct lb; [exfalso; now apply Hlb|].
      f_equal. apply IH.
      + destruct l; [exact I | apply Hna].
      + intros _. destruct l as [|b l]; [discriminate|].
        destruct Hna as [Hab _]. cbn. intros [= ->]. now apply Hab.
    - f_equal. apply IH; [|discriminate].
      destruct l; [exact I | apply Hna]. }
  apply Hid; [exact Hna | discriminate].
Qed.

Example squeeze_blanks_example :
  squeeze_blanks ["T"; ""; ""; "a"; ""; "b"; ""; ""; ""]
  = ["T"; ""; "a"; ""; "b"; ""].
Proof. reflexivity. Qed.

(** ** Classification counts *)

Lemma classify_fold_filter (end_ms : Z) (paid : gset Z)
    (cand_rows : list Cand.t) (t : Tally) :
  let t' := foldl (classify_step end_ms paid) t cand_rows in
  renewed t'
  = renewed t
    + Z.of_nat (length (filter (fun c => is_renewed end_ms paid c = true)
                               cand_rows))
  /\ not_renewed t'
     = not_renewed t
       + Z.of_nat (length (filter (fun c => is_renewed end_ms paid c = false)
                                  cand_rows)).
Proof.
  cbn zeta. revert t. induction cand_rows as [|c l IH]; intros t.
  - cbn. lia.
  - cbn [foldl]. destruct (IH (classify_step end_ms paid t c)) as [-> ->].
    rewrite !filter_cons. unfold classify_step, is_renewed.
    destruct (Cand.expiry_ms c) as [e|].
    + destruct (end_ms <=? e); cbn [renewed not_renewed count_renewed
        count_not_renewed]; repeat case_decide; try discriminate;
        cbn [length]; lia.
    + destruct (bool_decide (Cand.tg_id c ∈ paid));
        cbn [renewed not_renewed count_renewed count_not_renewed];
        repeat case_decide; try discriminate; cbn [length]; lia.
Qed.

(** X26. The report counts the candidates by one test each: a candidate
    with a known expiry is renewed when that expiry is at or after the
    window end, a candidate rebuilt from a payment when its account has a
    successful payment in the window; [renewed_count] and [not_renewed_yet]
    are the numbers of candidates passing and failing that test. *)
Theorem retention_counts_by_test (st : Store) (dt_start dt_end : Z)
    (flags : Flags) (probs : option (gmap string Q)) (global_prob : option Q) :
  let cohort := merged_candidates st dt_start dt_end flags in
  let paid := paid_in_month st dt_start dt_end in
  let r := _calc_retention_churn st dt_start dt_end flags probs global_prob in
  Retention.renewed_count r
  = Z.of_nat (length (filter (fun c => is_renewed dt_end paid c = true) cohort))
  /\ Retention.not_renewed_yet r
     = Z.of_nat (length (filter (fun c => is_renewed dt_end paid c = false)
                                cohort)).
Proof.
  cbn zeta. unfold _calc_retention_churn, retention_of.
  destruct (merged_candidates st dt_start dt_end flags) as [|c l] eqn:E.
  - split; reflexivity.
  - rewrite <- E.
    destruct (Z.eqb_spec (Z.of_nat (length (merged_candidates st dt_start dt_end flags))) 0)
      as [H0|_]; [rewrite E in H0; discriminate H0|].
    cbn [Retention.renewed_count Retention.not_renewed_yet].
    unfold classify.
    destruct (classify_fold_filter dt_end (paid_in_month st dt_start dt_end)
                (merged_candidates st dt_start dt_end flags)
                {| renewed := 0; not_renewed := 0; bucket_counts := ∅ |})
      as [-> ->].
    cbn. split; lia.
Qed.

(** ** The previous-cycle snapshot against the retention cohort *)

Lemma total_count_step (d : gmap string Info.t) (row : plan_row) :
  total_count (prev_data_step d row) = total_count d + row.1.1.2.
Proof.
  destruct row as [[[[[_id name] gcode] cnt] price] dur]. cbn [fst snd].
  unfold prev_data_step, total_count.
  destruct (d !! name) as [e|] eqn:E.
  - rewrite <- insert_delete_eq.
    rewrite map_fold_insert_L; [|intros; lia|apply lookup_delete_eq].
    rewrite (map_fold_delete_L _ 0 name e d); [cbn; lia|intros; lia|exact E].
  - rewrite map_fold_insert_L; [cbn; lia|intros; lia|exact E].
Qed.

Lemma total_count_fold (rows : list plan_row) (d : gmap string Info.t) :
  total_count (foldl prev_data_step d rows)
  = total_count d + foldr (fun row : plan_row => fun s => row.1.1.2 + s) 0 rows.
Proof.
  revert d. induction rows as [|row rows IH]; intros d; cbn [foldl foldr]; [lia|].
  rewrite IH, total_count_step. lia.
Qed.

Lemma grouped_counts_sum (st : Store) (cond : Key.t -> Plan.t -> bool) :
  foldr (fun row : plan_row => fun s => row.1.1.2 + s) 0 (grouped_by_plan st cond)
  = foldr (fun p s => plan_count st cond p + s) 0 (plans st).
Proof.
  rewrite grouped_by_plan_rows. induction (plans st) as [|p ps IH]; [reflexivity|].
  rewrite bind_cons. cbn [foldr].
  destruct (Z.ltb_spec 0 (plan_count st cond p)) as [Hpos|Hle].
  - cbn [app foldr]. rewrite IH. reflexivity.
  - cbn [app]. rewrite IH. unfold plan_count in *. lia.
Qed.

Lemma count_exchange (cond : Key.t -> Plan.t -> bool) (ps : list Plan.t)
    (ks : list Key.t) :
  foldr (fun p s =>
           Z.of_nat (length (filter
             (fun k => Plan.id p = Key.tariff_id k /\ cond k p = true) ks)) + s)
        0 ps
  = foldr (fun k s =>
             Z.of_nat (length (filter
               (fun p => Plan.id p = Key.tariff_id k /\ cond k p = true) ps)) + s)
          0 ks.
Proof.
  induction ks as [|k ks IH].
  - cbn. induction ps as [|p l IHl]; [reflexivity|]. cbn [foldr]. now rewrite IHl.
  - cbn [foldr]. rewrite <- IH. clear IH.
    induction ps as [|p l IHl]; [reflexivity|].
    cbn [foldr]. rewrite !filter_cons.
    repeat case_decide; cbn [length]; lia.
Qed.

Lemma candidates_of_key (start_ms end_ms : Z) (flags : Flags) (k : Key.t)
    (ps : list Plan.t) :
  length ((filter (fun p => Plan.id p = Key.tariff_id k) ps
             ≫= fun p => [(k, p)])
          ≫= fun '(k, p) =>
               if in_window (prev_expiry_ms k p) start_ms end_ms
                  && policy_ok flags k p
               then [Cand.mk (Some (Key.expiry_time k)) (Plan.group_code p)
                             (Plan.duration_days p) (Plan.price_rub p)
                             (Key.tg_id k)]
               else [])
  = length (filter (fun p => Plan.id p = Key.tariff_id k
                             /\ prev_cycle_cond start_ms end_ms flags k p = true)
                   ps).
Proof.
  induction ps as [|p ps IH]; [reflexivity|].
  rewrite !filter_cons. unfold prev_cycle_cond in *.
  destruct (decide (Plan.id p = Key.tariff_id k)) as [E|E].
  - rewrite bind_cons. cbn [app]. rewrite bind_cons, length_app, IH.
    destruct (in_window (prev_expiry_ms k p) start_ms end_ms && policy_ok flags k p).
    + rewrite decide_True by (now split). reflexivity.
    + rewrite decide_False by (intros [_ ?]; discriminate). reflexivity.
  - rewrite decide_False by (intros [? _]; contradiction). exact IH.
Qed.

Lemma candidates_count (st : Store) (start_ms end_ms : Z) (flags : Flags) :
  Z.of_nat (length (q_candidates st start_ms end_ms flags))
  = foldr (fun k s =>
             Z.of_nat (length (filter
               (fun p => Plan.id p = Key.tariff_id k
                         /\ prev_cycle_cond start_ms end_ms flags k p = true)
               (plans st))) + s)
          0 (keys st).
Proof.
  unfold q_candidates, joined.
  induction (keys st) as [|k ks IH]; [reflexivity|].
  rewrite bind_cons, bind_app, length_app, Nat2Z.inj_add, IH.
  cbn [foldr]. now rewrite candidates_of_key.
Qed.

(** X27. The previous-cycle snapshot of the baseline and the retention
    analyzer agree on the cohort: the counts of the snapshot add up to the
    number of real-subscription candidates of the same window and policy. *)
Theorem prev_snapshot_counts_candidates (st : Store) (start_ms end_ms : Z)
    (flags : Flags) :
  total_count (get_prev_data st start_ms end_ms flags)
  = Z.of_nat (length (q_candidates st start_ms end_ms flags)).
Proof.
  unfold get_prev_data. rewrite total_count_fold.
  fold (prev_cycle_cond start_ms end_ms flags).
  change (fun k p => prev_cycle_cond start_ms end_ms flags k p)
    with (prev_cycle_cond start_ms end_ms flags).
  rewrite grouped_counts_sum, candidates_count.
  unfold total_count. rewrite map_fold_empty, Z.add_0_l.
  unfold plan_count. apply count_exchange.
Qed.

Example prev_snapshot_counts_scenario :
  total_count (get_prev_data retention_store 0 (31 * ms_per_day) no_policy) = 2
  /\ length (q_candidates retention_store 0 (31 * ms_per_day) no_policy) = 2%nat.
Proof. split; reflexivity. Qed.
